(** * vba-blocks: lockfile codec, export action, changeset application

    A shallow embedding of the parts of the vba-blocks sources that the
    specification talks about, followed by the properties proved of them.

    - [src/src/reporter.ts]: the error-message table, and the lockfile
      module ([readLockfile], [writeLockfile], [isLockfileValid], [toToml],
      [fromToml] and their helpers);
    - [src/src/actions/export-project.ts]: [exportProject];
    - [src/src/build/apply-changeset.ts]: [updateManifest];
    - [src/packages/cli/src/utils/download.ts]: the [path] source backend;
    - [src/unnamed/part_000]: [getStaging].

    Promises are run to completion in program order: an [await] is a
    sequencing point, a rejected promise is a thrown exception. *)

From stdpp Require Import base option list strings gmap pretty sorting.
From Stdlib Require Import ZArith Lia Ascii.

Local Open Scope Z_scope.
Local Open Scope stdpp_scope.

(* ================================================================== *)
(** * Part I: the embedding *)
(* ================================================================== *)

(** ** Exceptions *)

(** A JavaScript exception: the [CliError] codes the sources raise, a failed
    [assert.ok] with its message, a [TypeError] of the runtime, or a failure
    of an operation of the environment (file system, bridge, parser). *)
Inductive Error : Type :=
  | CliError (code : string) (message : string)
  | AssertionError (message : string)
  | TypeError (message : string)
  | EnvError (message : string).

Inductive result (A : Type) : Type :=
  | Ok (a : A)
  | Err (e : Error).
Arguments Ok {A} a.
Arguments Err {A} e.

Definition rbind {A B} (m : result A) (k : A → result B) : result B :=
  match m with
  | Ok a => k a
  | Err e => Err e
  end.

Notation "x ←! m ;; k" := (rbind m (fun x => k))
  (at level 100, m at next level, right associativity).
Notation "m ;;! k" := (rbind m (fun _ => k))
  (at level 100, right associativity).

(** [ok(value, message)] of Node's [assert]: throws when [value] is falsy. *)
Definition ok (value : bool) (message : string) : result unit :=
  if value then Ok tt else Err (AssertionError message).

(** [array.map(f)] with a callback that may throw: elements are visited from
    the left and the first exception aborts the traversal. *)
Fixpoint mapM {A B} (f : A → result B) (l : list A) : result (list B) :=
  match l with
  | [] => Ok []
  | x :: l' => y ←! f x ;; ys ←! mapM f l' ;; Ok (y :: ys)
  end.

(** Truthiness of a JavaScript string and of an optional string. *)
Definition truthy (s : string) : bool := negb (String.eqb s EmptyString).
Definition truthy_opt (o : option string) : bool :=
  match o with
  | Some s => truthy s
  | None => false
  end.

(** [haystack.includes(needle)]. *)
Fixpoint includes (needle haystack : string) : bool :=
  String.prefix needle haystack ||
  match haystack with
  | EmptyString => false
  | String _ rest => includes needle rest
  end.

(** The line feed a template literal holds between two lines, and the
    double quote. *)
Definition LF : string := String (Ascii.ascii_of_nat 10) EmptyString.
Definition DQ : string := String (Ascii.ascii_of_nat 34) EmptyString.

(** ** Path utilities ([utils/path], whose source is not embedded)

    [join], [relative], [trailing] and [sanitize] wrap Node's [path] module;
    they are an interface of the embedding. *)
Class PathOps : Type := {
  join : string → string → string;
  relative : string → string → string;
  trailing : string → string;
  sanitize : string → string
}.

(** An instance for closed examples: on a normalised directory and a
    relative name [path.posix.join] puts one separator between the two;
    [relative] strips the directory and its separator; [trailing] appends a
    separator. *)
Definition strip_prefix (p s : string) : string :=
  if String.prefix p s then String.substring (String.length p) (String.length s - String.length p) s else s.
Definition simple_join (a b : string) : string := a +:+ "/" +:+ b.
Definition simplePaths : PathOps := {|
  join := simple_join;
  relative := fun from to => strip_prefix (from +:+ "/") to;
  trailing := fun p => p +:+ "/";
  sanitize := fun s => s
|}.

(** ** Dependencies ([manifest/dependency])

    [Dependency] is the union of three interfaces, told apart by the type
    guards [isRegistryDependency], [isPathDependency] and [isGitDependency].
    A git dependency carries the optional fields [rev], [tag] and [branch],
    which the code tests one by one with [has]. *)
Record RegistryDependency := {
  reg_name : string;
  reg_version : string;
  reg_registry : string
}.
Record PathDependency := {
  path_name : string;
  path_path : string;
  path_version : option string
}.
Record GitDependency := {
  git_name : string;
  git_git : string;
  git_rev : option string;
  git_tag : option string;
  git_branch : option string
}.
Inductive Dependency : Type :=
  | Registry (d : RegistryDependency)
  | Path (d : PathDependency)
  | Git (d : GitDependency).

Definition dep_name (d : Dependency) : string :=
  match d with
  | Registry r => reg_name r
  | Path p => path_name p
  | Git g => git_name g
  end.

Definition isRegistryDependency (d : Dependency) : bool :=
  match d with Registry _ => true | _ => false end.
Definition isPathDependency (d : Dependency) : bool :=
  match d with Path _ => true | _ => false end.
Definition isGitDependency (d : Dependency) : bool :=
  match d with Git _ => true | _ => false end.

Global Instance RegistryDependency_eq_dec : EqDecision RegistryDependency.
Proof. solve_decision. Defined.
Global Instance PathDependency_eq_dec : EqDecision PathDependency.
Proof. solve_decision. Defined.
Global Instance GitDependency_eq_dec : EqDecision GitDependency.
Proof. solve_decision. Defined.
Global Instance Dependency_eq_dec : EqDecision Dependency.
Proof. solve_decision. Defined.

(** ** Registrations and snapshots ([sources/registration], [manifest]) *)
Record Registration := {
  id : string;
  name : string;
  version : string;
  source : string;
  dependencies : list Dependency
}.
Abbreviation DependencyGraph := (list Registration).

Record Snapshot := {
  snap_name : string;
  snap_version : string;
  snap_dependencies : list Dependency
}.

Record Workspace := {
  root : Snapshot;
  members : list Snapshot
}.

(** A manifest as loaded from disk: the snapshot fields, the [src] entries
    and the default target. *)
Record Source := {
  src_name : string;
  src_path : string
}.
Record Target := {
  target_type : string;
  target_name : string;
  target_path : string;
  target_filename : string;
  target_blank : bool
}.
Record Manifest := {
  manifest_name : string;
  manifest_version : string;
  manifest_src : list Source;
  manifest_target : option Target;
  manifest_dependencies : list Dependency
}.

Global Instance Registration_eq_dec : EqDecision Registration.
Proof. solve_decision. Defined.
Global Instance Snapshot_eq_dec : EqDecision Snapshot.
Proof. solve_decision. Defined.
Global Instance Workspace_eq_dec : EqDecision Workspace.
Proof. solve_decision. Defined.

(* ------------------------------------------------------------------ *)
(** ** [reporter.ts]: error messages *)
(* ------------------------------------------------------------------ *)
Module Reporter.

(** The entries of [ErrorMessages] used below whose templates interpolate
    no value, each with the values its type declares. *)
Inductive ErrorValues : Type :=
  | target_no_default
  | resolve_failed (details : option string).

(** [reporter.messages.errors[key](values)] for these entries: the fixed
    text of the template, without its first line break and its common
    indentation. *)
Definition errors (values : ErrorValues) : string :=
  match values with
  | target_no_default =>
      "No default target(s) found for project." +:+ LF +:+
      "Use --target TYPE for a blank target or specify [target] or [targets] in vba-block.toml"
  | resolve_failed _ =>
      "Unable to resolve dependency graph for project." +:+ LF +:+ LF +:+
      "There are dependencies that cannot be satisfied."
  end.

End Reporter.

(* ------------------------------------------------------------------ *)
(** ** Parsed TOML documents ([utils/toml]) *)
(* ------------------------------------------------------------------ *)

(** The tree [parseToml] returns and [convertToToml] takes: strings, arrays
    and tables. [VUndefined] is what reading an absent field gives. Numbers,
    booleans and dates, which no lockfile position holds, are left out. *)
Unset Elimination Schemes.
Inductive Toml : Type :=
  | VUndefined
  | VString (s : string)
  | VArray (items : list Toml)
  | VTable (fields : list (string * Toml)).
Set Elimination Schemes.

Fixpoint assoc {A} (key : string) (fields : list (string * A)) : option A :=
  match fields with
  | [] => None
  | (k, v) :: rest => if String.eqb k key then Some v else assoc key rest
  end.

(** [has(value, key)] of [utils/has]: an own property of an object. *)
Definition has (value : Toml) (key : string) : bool :=
  match value with
  | VTable fields => bool_decide (is_Some (assoc key fields))
  | _ => false
  end.

(** [value.key] and [const { key } = value]. *)
Definition field (value : Toml) (key : string) : Toml :=
  match value with
  | VTable fields => default VUndefined (assoc key fields)
  | _ => VUndefined
  end.

Definition toml_truthy (value : Toml) : bool :=
  match value with
  | VUndefined => false
  | VString s => truthy s
  | VArray _ | VTable _ => true
  end.

Definition isArray (value : Toml) : bool :=
  match value with
  | VArray _ => true
  | _ => false
  end.

(** [(value || []).map(...)]: the list the callback runs over. A truthy
    value that is no array has no [map]. *)
Definition array_or_empty (value : Toml) : result (list Toml) :=
  match value with
  | VArray items => Ok items
  | VUndefined => Ok []
  | VString s => if truthy s then Err (TypeError "map is not a function") else Ok []
  | VTable _ => Err (TypeError "map is not a function")
  end.

(** The elements of a value that passed [Array.isArray]. *)
Definition array_items (value : Toml) : list Toml :=
  match value with
  | VArray items => items
  | _ => []
  end.

(** Reading a position the TypeScript types declare as [string]. The
    sources do no such check; the embedding narrows here, so that what
    [fromToml] returns is a [Lockfile] of the declared type. *)
Definition as_string (value : Toml) : result string :=
  match value with
  | VString s => Ok s
  | _ => Err (TypeError "not a string")
  end.

Class TomlCodec : Type := {
  convertToToml : Toml → string;
  parseToml : string → result Toml
}.

(* ------------------------------------------------------------------ *)
(** ** [reporter.ts], second document: the lockfile module *)
(* ------------------------------------------------------------------ *)

(** *** Registration helpers ([sources/registration], source not embedded)

    [getSourceParts] splits a source string [type+value#details];
    [getRegistrationSource] builds one; [getRegistrationId] names a
    registration; [toDependency] turns a registration into the dependency
    that pins it. When [fromToml] calls [toDependency], the registration's
    [dependencies] still hold the id strings of the document, so the
    operation is given the four scalar fields. *)
Record SourceParts := {
  sp_type : string;
  sp_value : string;
  sp_details : option string
}.
Record RegistrationHead := {
  head_id : string;
  head_name : string;
  head_version : string;
  head_source : string
}.
Class RegistrationOps : Type := {
  getRegistrationId : string → string → string;
  getRegistrationSource : string → string → option string → string;
  getSourceParts : string → SourceParts;
  toDependency : RegistrationHead → Dependency
}.

(** Modelled from the spec: [getRegistration] of [resolve], whose source
    is missing.
    The graph holds one registration per name and a dependency is met by
    the registration of its name, so the lookup is by name. *)
Definition getRegistration (graph : DependencyGraph) (dependency : Dependency)
  : option Registration :=
  find (fun value => bool_decide (name value = dep_name dependency)) graph.

(** *** The environment the lockfile module runs in *)

(** [satisfies] of the [semver] package, [loadManifest] of [manifest], and
    [version] of [package.json]. *)
Class LockfileEnv : Type := {
  satisfiesSemver : string → string → bool;
  loadManifest : string → result Manifest;
  VBA_BLOCKS_VERSION : string
}.

(** [pathExists], [readFile] and [writeFile] of [utils/fs] over a state of
    the file system. *)
Class FileSystem (World : Type) : Type := {
  pathExists : World → string → bool;
  readFile : World → string → result string;
  writeFile : string → string → World → result World
}.

Record Metadata := {
  meta_version : string
}.
Record Lockfile := {
  metadata : option Metadata;
  workspace : Workspace;
  packages : DependencyGraph
}.

Global Instance Metadata_eq_dec : EqDecision Metadata.
Proof. solve_decision. Defined.
Global Instance Lockfile_eq_dec : EqDecision Lockfile.
Proof. solve_decision. Defined.

Definition LOCKFILE_VERSION : string := "1".

(** A [for ... of] loop that returns [false] at the first element failing
    the test and [true] after the last one; the test may throw. *)
Fixpoint every {A} (test : A → result bool) (l : list A) : result bool :=
  match l with
  | [] => Ok true
  | x :: rest => b ←! test x ;; if b then every test rest else Ok false
  end.

(** [items.forEach(item => (byName[key(item)] = item))] on a fresh object:
    a later item replaces an earlier one of the same key. (A key the
    object inherits, such as [constructor], reads as a function, which has
    none of the fields the comparisons look at and fails them as an absent
    entry does; the index is a finite map.) *)
Definition indexBy {A} (key : A → string) (items : list A) : gmap string A :=
  foldl (fun byName item => <[key item := item]> byName) ∅ items.

Section Lockfile.
Context {paths : PathOps} {regs : RegistrationOps} {codec : TomlCodec}
        {env : LockfileEnv}.

Definition satisfiesDependency (value comparison : Dependency) : result bool :=
  match comparison with
  | Registry c =>
      match value with
      | Registry v => Ok (satisfiesSemver (reg_version c) (reg_version v))
      | _ => Ok false
      end
  | Path c =>
      match value with
      | Path v =>
          if negb (String.eqb (path_path v) (path_path c)) then Ok false
          else
            manifest ←! loadManifest (path_path v) ;;
            Ok (bool_decide (Some (manifest_version manifest) = path_version c))
      | _ => Ok false
      end
  | Git c =>
      match value with
      | Git v =>
          match git_rev v, git_rev c with
          | Some a, Some b => Ok (String.eqb a b)
          | _, _ =>
          match git_tag v, git_tag c with
          | Some a, Some b => Ok (String.eqb a b)
          | _, _ =>
          match git_branch v, git_branch c with
          | Some a, Some b => Ok (String.eqb a b)
          | _, _ => Ok false
          end end end
      | _ => Ok false
      end
  end.

Definition compareDependencies (current locked : Snapshot) : result bool :=
  if negb (length (snap_dependencies current) =? length (snap_dependencies locked))%nat
  then Ok false
  else
    let byName := indexBy dep_name (snap_dependencies current) in
    every (fun dependency =>
             match byName !! dep_name dependency with
             | None => Ok false
             | Some currentValue => satisfiesDependency currentValue dependency
             end)
          (snap_dependencies locked).

Definition compareManifests (current locked : Snapshot) : result bool :=
  if negb (String.eqb (snap_name current) (snap_name locked)) then Ok false
  else if negb (String.eqb (snap_version current) (snap_version locked)) then Ok false
  else compareDependencies current locked.

Definition isLockfileValid (lockfile : Lockfile) (workspace0 : Workspace)
  : result bool :=
  match metadata lockfile with
  | None => Ok false
  | Some m =>
    if negb (String.eqb (meta_version m) LOCKFILE_VERSION) then Ok false
    else
      b ←! compareManifests (root workspace0) (root (workspace lockfile)) ;;
      if negb b then Ok false
      else if negb (length (members (workspace lockfile)) =? length (members workspace0))%nat
      then Ok false
      else
        let byName := indexBy snap_name (members workspace0) in
        every (fun member =>
                 match byName !! snap_name member with
                 | None => Ok false
                 | Some currentMember => compareManifests currentMember member
                 end)
              (members (workspace lockfile))
  end.

(** [prepareSource] and [getSource]: a [path] source is stored relative to
    the project directory and made absolute again on reading. *)
Definition prepareSource (source0 dir : string) : string :=
  let parts := getSourceParts source0 in
  if negb (String.eqb (sp_type parts) "path") then source0
  else
    let relativePath := trailing (relative dir (sp_value parts)) in
    getRegistrationSource (sp_type parts) relativePath (sp_details parts).

Definition getSource (source0 dir : string) : string :=
  let parts := getSourceParts source0 in
  if negb (String.eqb (sp_type parts) "path") then source0
  else
    let absolutePath := join dir (sp_value parts) in
    getRegistrationSource (sp_type parts) absolutePath (sp_details parts).

Definition toDependencyId (dependency : Dependency) (packages0 : DependencyGraph)
    (dir : string) : result string :=
  match getRegistration packages0 dependency with
  | None => Err (AssertionError "No package found for dependency")
  | Some registration =>
      let parts := getSourceParts (source registration) in
      let source' :=
        if String.eqb (sp_type parts) "path"
        then getRegistrationSource (sp_type parts)
               (trailing (relative dir (sp_value parts))) (sp_details parts)
        else source registration in
      Ok (dep_name dependency +:+ " " +:+ version registration +:+ " " +:+ source')
  end.

Definition prepareManifest (manifest : Snapshot) (packages0 : DependencyGraph)
    (dir : string) : result Toml :=
  dependencies0 ←! mapM (fun dependency => toDependencyId dependency packages0 dir)
                        (snap_dependencies manifest) ;;
  Ok (VTable [("name", VString (snap_name manifest));
              ("version", VString (snap_version manifest));
              ("dependencies", VArray (VString <$> dependencies0))]).

(** [packages.sort((a, b) => ...)] by [name]: a stable sort, in place.
    [String.ltb] orders strings by their character codes, as [<] does. *)
Fixpoint insertByName (r : Registration) (sorted : DependencyGraph) : DependencyGraph :=
  match sorted with
  | [] => [r]
  | x :: rest =>
      if String.ltb (name x) (name r) then x :: insertByName r rest
      else r :: sorted
  end.
Definition sortByName (graph : DependencyGraph) : DependencyGraph :=
  foldr insertByName [] graph.

Definition preparePackage (packages0 : DependencyGraph) (dir : string)
    (registration : Registration) : result Toml :=
  dependencies0 ←! mapM (fun dependency => toDependencyId dependency packages0 dir)
                        (dependencies registration) ;;
  Ok (VTable [("name", VString (name registration));
              ("version", VString (version registration));
              ("source", VString (prepareSource (source registration) dir));
              ("dependencies", VArray (VString <$> dependencies0))]).

(** The object [toToml] hands to [convertToToml]. The root and the members
    are prepared first; then [lockfile.packages] is sorted in place, and the
    callback of [map] sees the sorted array. *)
Definition toTomlValue (lockfile : Lockfile) (dir : string) : result Toml :=
  root0 ←! prepareManifest (root (workspace lockfile)) (packages lockfile) dir ;;
  members0 ←! mapM (fun member => prepareManifest member (packages lockfile) dir)
                   (members (workspace lockfile)) ;;
  let sorted := sortByName (packages lockfile) in
  packages0 ←! mapM (preparePackage sorted dir) sorted ;;
  let metadata0 := VTable [("version", VString LOCKFILE_VERSION)] in
  Ok (VTable [("metadata", metadata0); ("root", root0);
              ("members", VArray members0); ("packages", VArray packages0)]).

Definition header : string :=
  "# Auto-generated by vba-blocks " +:+ VBA_BLOCKS_VERSION +:+ LF.

(** [toToml] returns the text; the second component is the caller's
    lockfile after the call, its packages sorted. *)
Definition toToml (lockfile : Lockfile) (dir : string) : result (string * Lockfile) :=
  value ←! toTomlValue lockfile dir ;;
  Ok (header +:+ convertToToml value,
      {| metadata := metadata lockfile;
         workspace := workspace lockfile;
         packages := sortByName (packages lockfile) |}).

(** [id.split(' ', 1)[0]]: the text before the first space. *)
Fixpoint beforeSpace (s : string) : string :=
  match s with
  | EmptyString => EmptyString
  | String c rest =>
      if Ascii.eqb c " "%char then EmptyString else String c (beforeSpace rest)
  end.

Definition getDependency (id0 : Toml) (byName : gmap string Dependency)
  : result Dependency :=
  match id0 with
  | VString s =>
      match byName !! beforeSpace s with
      | Some dependency => Ok dependency
      | None =>
          Err (AssertionError ("Package not found in lockfile, " +:+ DQ +:+ s +:+ DQ))
      end
  | _ => Err (TypeError "id.split is not a function")
  end.

Definition toManifest (value : Toml) (byName : gmap string Dependency)
  : result Snapshot :=
  let name0 := field value "name" in
  let version0 := field value "version" in
  ok (toml_truthy name0 && toml_truthy version0 && isArray (field value "dependencies"))
     "Invalid manifest in lockfile" ;;!
  dependencies0 ←! mapM (fun id0 => getDependency id0 byName)
                        (array_items (field value "dependencies")) ;;
  name1 ←! as_string name0 ;;
  version1 ←! as_string version0 ;;
  Ok {| snap_name := name1; snap_version := version1;
        snap_dependencies := dependencies0 |}.

(** First pass over [parsed.packages]: each entry is checked, turned into a
    registration whose dependencies are still ids, and entered in [byName]. *)
Definition loadPackage (dir : string) (value : Toml)
  : result (RegistrationHead * list Toml) :=
  let name0 := field value "name" in
  let version0 := field value "version" in
  let source0 := field value "source" in
  let dependencies0 := field value "dependencies" in
  ok (toml_truthy name0 && toml_truthy version0 && toml_truthy source0
      && isArray dependencies0) "Invalid package in lockfile" ;;!
  name1 ←! as_string name0 ;;
  version1 ←! as_string version0 ;;
  source1 ←! as_string source0 ;;
  Ok ({| head_id := getRegistrationId name1 version1;
         head_name := name1;
         head_version := version1;
         head_source := getSource source1 dir |},
      array_items dependencies0).

Fixpoint loadPackages (dir : string) (values : list Toml)
    (byName : gmap string Dependency)
  : result (list (RegistrationHead * list Toml) * gmap string Dependency) :=
  match values with
  | [] => Ok ([], byName)
  | value :: rest =>
      registration ←! loadPackage dir value ;;
      let byName' := <[head_name (fst registration) := toDependency (fst registration)]> byName in
      r ←! loadPackages dir rest byName' ;;
      Ok (registration :: fst r, snd r)
  end.

(** Second pass: the ids of every registration become dependencies. *)
Definition hydrate (byName : gmap string Dependency)
    (registration : RegistrationHead * list Toml) : result Registration :=
  dependencies0 ←! mapM (fun id0 => getDependency id0 byName) (snd registration) ;;
  Ok {| id := head_id (fst registration);
        name := head_name (fst registration);
        version := head_version (fst registration);
        source := head_source (fst registration);
        dependencies := dependencies0 |}.

(** [parsed.metadata], narrowed to the declared type: anything that is not
    a table with a string [version] compares unequal to [LOCKFILE_VERSION]
    in [isLockfileValid], as an absent [metadata] does. *)
Definition toMetadata (value : Toml) : option Metadata :=
  match field value "version" with
  | VString s => Some {| meta_version := s |}
  | _ => None
  end.

Definition fromTomlValue (parsed : Toml) (dir : string) : result Lockfile :=
  ok (has parsed "root") "vba-block.lock is missing [root] field" ;;!
  let metadata0 := toMetadata (field parsed "metadata") in
  values ←! array_or_empty (field parsed "packages") ;;
  loaded ←! loadPackages dir values ∅ ;;
  let byName := snd loaded in
  packages0 ←! mapM (hydrate byName) (fst loaded) ;;
  root0 ←! toManifest (field parsed "root") byName ;;
  values' ←! array_or_empty (field parsed "members") ;;
  members0 ←! mapM (fun member => toManifest member byName) values' ;;
  Ok {| metadata := metadata0;
        workspace := {| root := root0; members := members0 |};
        packages := packages0 |}.

Definition fromToml (toml : string) (dir : string) : result Lockfile :=
  parsed ←! parseToml toml ;;
  fromTomlValue parsed dir.

(** [try { ... } catch (err) { ... }]. *)
Definition try_catch {A} (body : result A) (handler : Error → result A) : result A :=
  match body with
  | Ok a => Ok a
  | Err e => handler e
  end.

Section Files.
Context {World : Type} {fs : FileSystem World}.

(** [null] is [None]. The two [debug] calls of the handler only log. *)
Definition readLockfile (w : World) (dir : string) : result (option Lockfile) :=
  try_catch
    (let file := join dir "vba-block.lock" in
     if negb (pathExists w file) then Ok None
     else
       toml ←! readFile w file ;;
       lockfile ←! fromToml toml dir ;;
       Ok (Some lockfile))
    (fun err => Ok None).

(** The caller's lockfile is left with its packages sorted, as [toToml]
    reports; the result here is the file system. *)
Definition writeLockfile (dir : string) (lockfile : Lockfile) (w : World)
  : result World :=
  let file := join dir "vba-block.lock" in
  try_catch
    (toml ←! toToml lockfile dir ;;
     writeFile file (fst toml) w)
    (fun err =>
       Err (CliError "lockfile-write-failed"
              ("Failed to write lockfile to " +:+ DQ +:+ file +:+ DQ +:+ "."))).

End Files.
End Lockfile.

(* ------------------------------------------------------------------ *)
(** ** Projects, and actions on the file system *)
(* ------------------------------------------------------------------ *)

Record Project := {
  project_manifest : Manifest;
  paths_dir : string;
  paths_staging : string
}.

(** An action over a state [S] that may throw: the state it leaves is kept
    also when it throws. *)
Definition Eff (S A : Type) : Type := S → result A * S.

Definition eret {S A} (a : A) : Eff S A := fun s => (Ok a, s).
Definition throw {S A} (e : Error) : Eff S A := fun s => (Err e, s).
Definition ebind {S A B} (m : Eff S A) (k : A → Eff S B) : Eff S B :=
  fun s =>
    match m s with
    | (Ok a, s') => k a s'
    | (Err e, s') => (Err e, s')
    end.

Notation "x ←$ m ;; k" := (ebind m (fun x => k))
  (at level 100, m at next level, right associativity).
Notation "m ;;$ k" := (ebind m (fun _ => k))
  (at level 100, right associativity).

(** [try { body } catch (err) { throw err; } finally { finalizer }]: the
    finalizer runs on both exits of the body; when it throws, its exception
    replaces the outcome of the body. *)
Definition try_finally {S A} (body : Eff S A) (finalizer : Eff S unit) : Eff S A :=
  fun s =>
    match body s with
    | (r, s') =>
        match finalizer s' with
        | (Ok _, s'') => (r, s'')
        | (Err e, s'') => (Err e, s'')
        end
    end.

(** [ensureDir], [emptyDir], [remove] and [ensureDirSync] of [utils/fs]. *)
Class DirOps (World : Type) : Type := {
  ensureDir : string → Eff World unit;
  emptyDir : string → Eff World unit;
  remove : string → Eff World unit;
  ensureDirSync : string → Eff World unit
}.

(* ------------------------------------------------------------------ *)
(** ** [unnamed/part_000]: the staging directory *)
(* ------------------------------------------------------------------ *)
Module Cache.

(** [process.platform] and [os.homedir()]. *)
Record Process := {
  platform : string;
  homedir : string
}.

Section Cache.
Context {paths : PathOps} {World : Type} {dirs : DirOps World}.

Definition findMacOfficeContainer (proc : Process) : string :=
  join (homedir proc) "Library/Group Containers/UBF8T346G9.Office".

Definition getStaging (proc : Process) (cache : string) : Eff World string :=
  let staging :=
    if String.eqb (platform proc) "win32"
    then join cache "staging"
    else join (findMacOfficeContainer proc) ".vba-blocks" in
  ensureDirSync staging ;;$
  eret staging.

End Cache.
End Cache.

(* ------------------------------------------------------------------ *)
(** ** [actions/export-project.ts] *)
(* ------------------------------------------------------------------ *)
Module ExportProject.

Record ExportOptions := {
  target : option string;
  completed : option string;
  addin : option string
}.

Inductive Message : Type :=
  | ExportProjectLoading
  | ExportToStaging
  | ExportToProject.

(** What the action works on: the file system, the local variable
    [staging] ([None] until it is assigned) and what [env.reporter.log]
    received. *)
Record State (World : Type) := {
  world : World;
  staging : option string;
  logged : list (Message * string)
}.
Arguments world {World} _.
Arguments staging {World} _.
Arguments logged {World} _.

(** [loadProject] and [fetchDependencies] of [project], [exportTarget] of
    [targets], [exportTo] of [addin]. *)
Class Collaborators (World Dependencies : Type) : Type := {
  loadProject : Eff World Project;
  fetchDependencies : Project → Eff World Dependencies;
  exportTo : Project → Target → string → ExportOptions → Eff World unit;
  exportTarget : Target → Project → Dependencies → string → Eff World unit
}.

Section ExportProject.
Context {paths : PathOps} {World Dependencies : Type}
        {dirs : DirOps World} {collab : Collaborators World Dependencies}.

(** An operation on the file system, run inside the action. *)
Definition io {A} (m : Eff World A) : Eff (State World) A :=
  fun st =>
    match m (world st) with
    | (r, w') => (r, {| world := w'; staging := staging st; logged := logged st |})
    end.

Definition log (message : Message) (text : string) : Eff (State World) unit :=
  fun st =>
    (Ok tt, {| world := world st; staging := staging st;
               logged := logged st ++ [(message, text)] |}).

Definition assign_staging (value : string) : Eff (State World) unit :=
  fun st =>
    (Ok tt, {| world := world st; staging := Some value; logged := logged st |}).

Definition read_staging : Eff (State World) (option string) :=
  fun st => (Ok (staging st), st).

(** The target the export works on, [None] for [undefined]. *)
Definition chooseTarget (options : ExportOptions) (project : Project) : option Target :=
  match manifest_target (project_manifest project) with
  | Some t =>
      if negb (truthy_opt (target options))
         || bool_decide (target options = Some (target_type t))
      then Some t
      else None
  | None =>
      let type := default EmptyString (target options) in
      let name0 := manifest_name (project_manifest project) in
      Some {| target_type := type;
              target_name := name0;
              target_path := "targets/" +:+ type;
              target_filename := sanitize name0 +:+ "." +:+ type;
              target_blank := true |}
  end.

(** The body of the [try] block. *)
Definition staged (options : ExportOptions) (project : Project) (target0 : Target)
    (dependencies0 : Dependencies) : Eff (State World) unit :=
  (if negb (truthy_opt (completed options))
   then
     let staging0 := join (paths_staging project) "export" in
     assign_staging staging0 ;;$
     log ExportToStaging
         (LF +:+ "[2/3] Exporting src from " +:+ DQ +:+
          target_filename target0 +:+ DQ) ;;$
     io (ensureDir staging0) ;;$
     io (emptyDir staging0) ;;$
     io (exportTo project target0 staging0 options)
   else
     assign_staging (default EmptyString (completed options))) ;;$
  staging1 ←$ read_staging ;;
  log ExportToProject (LF +:+ "[3/3] Updating project") ;;$
  io (exportTarget target0 project dependencies0 (default EmptyString staging1)).

(** The [finally] block: [if (staging) await remove(staging)]. *)
Definition cleanup : Eff (State World) unit :=
  staging1 ←$ read_staging ;;
  if truthy_opt staging1
  then io (remove (default EmptyString staging1))
  else eret tt.

Definition exportProject (options : ExportOptions) : Eff (State World) unit :=
  log ExportProjectLoading "[1/3] Loading project..." ;;$
  project ←$ io loadProject ;;
  if negb (truthy_opt (target options))
     && negb (bool_decide (is_Some (manifest_target (project_manifest project))))
  then
    throw (CliError "export-no-target"
             ("No default target found for project," +:+ LF +:+
              "use --target TYPE to export from a specific target."))
  else
    match chooseTarget options project with
    | None =>
        throw (CliError "export-no-matching"
                 ("No matching target found for type " +:+ DQ +:+
                  default EmptyString (target options) +:+ DQ +:+ " in project."))
    | Some target0 =>
        dependencies0 ←$ io (fetchDependencies project) ;;
        try_finally (staged options project target0 dependencies0) cleanup
    end.

End ExportProject.
End ExportProject.

(* ------------------------------------------------------------------ *)
(** ** [build/apply-changeset.ts]: the manifest update *)
(* ------------------------------------------------------------------ *)
Module ApplyChangeset.

Record Component := {
  component_name : string;
  component_filename : string
}.
Record Components := {
  added : list Component;
  changed : list Component;
  removed : list Component
}.
Record Changeset := {
  components : Components
}.

(** [addSource] and [removeSource] of [manifest/patch-manifest]: the text
    edits for the manifest file. *)
Class PatchManifest : Type := {
  addSource : Manifest → Source → string;
  removeSource : Manifest → string → string
}.

(** [array.findIndex(test)]: the first index whose element passes, or -1. *)
Fixpoint findIndex {A} (test : A → bool) (l : list A) : Z :=
  match l with
  | [] => -1
  | x :: rest =>
      if test x then 0
      else
        let i := findIndex test rest in
        if i <? 0 then -1 else i + 1
  end.

(** The array after [array.splice(index, 1)]: a negative [index] counts
    from the end, and the start is clamped to the array. *)
Definition splice1 {A} (index : Z) (l : list A) : list A :=
  let len := Z.of_nat (length l) in
  let start := if index <? 0 then Z.max (len + index) 0 else Z.min index len in
  delete (Z.to_nat start) l.

Definition with_src (manifest : Manifest) (src : list Source) : Manifest :=
  {| manifest_name := manifest_name manifest;
     manifest_version := manifest_version manifest;
     manifest_src := src;
     manifest_target := manifest_target manifest;
     manifest_dependencies := manifest_dependencies manifest |}.

Definition with_manifest (project : Project) (manifest : Manifest) : Project :=
  {| project_manifest := manifest;
     paths_dir := paths_dir project;
     paths_staging := paths_staging project |}.

Section ApplyChangeset.
Context {paths : PathOps} {patch : PatchManifest}.

(** One turn of the first loop: the source is pushed, then its change is
    recorded. The state is the manifest and [changes]. *)
Definition addOne (dir : string) (st : Manifest * list string) (component : Component)
  : Manifest * list string :=
  let source0 := {| src_name := component_name component;
                    src_path := join dir ("src/" +:+ component_filename component) |} in
  let manifest := with_src (fst st) (manifest_src (fst st) ++ [source0]) in
  (manifest, snd st ++ [addSource manifest source0]).

(** One turn of the second loop. *)
Definition removeOne (st : Manifest * list string) (component : Component)
  : Manifest * list string :=
  let index := findIndex
                 (fun source0 => String.eqb (src_name source0) (component_name component))
                 (manifest_src (fst st)) in
  let manifest := with_src (fst st) (splice1 index (manifest_src (fst st))) in
  (manifest, snd st ++ [removeSource manifest (component_name component)]).

(** [updateManifest]: the project with its manifest updated in place, and
    the list handed to [applyChanges]. *)
Definition updateManifest (project : Project) (changeset : Changeset)
  : Project * list string :=
  let st0 := (project_manifest project, []) in
  let st1 := foldl (addOne (paths_dir project)) st0 (added (components changeset)) in
  let st2 := foldl removeOne st1 (removed (components changeset)) in
  (with_manifest project (fst st2), snd st2).

End ApplyChangeset.
End ApplyChangeset.

(* ------------------------------------------------------------------ *)
(** ** [packages/cli/src/utils/download.ts], second document: the [path]
       source backend *)
(* ------------------------------------------------------------------ *)
Module PathSource.

(** The [Source] contract of [sources/source]: [type] is a type name or a
    dependency. *)
Record SourceBackend (Config : Type) := {
  matches : string + Dependency → bool;
  resolve : Config → Dependency → list Registration;
  fetch : Config → Registration → string
}.
Arguments matches {Config} _ _.
Arguments resolve {Config} _ _ _.
Arguments fetch {Config} _ _ _.

Definition path {Config : Type} : SourceBackend Config := {|
  matches := fun type =>
    match type with
    | inl s => String.eqb s "path"
    | inr dependency => isPathDependency dependency
    end;
  resolve := fun config dependency => [];
  fetch := fun config registration => EmptyString
|}.

End PathSource.

(* ------------------------------------------------------------------ *)
(** ** Vocabulary of the properties *)
(* ------------------------------------------------------------------ *)

(** [p] is [dir] or lies below it. *)
Definition within (dir p : string) : bool :=
  String.eqb dir p || String.prefix (dir +:+ "/") p.

Section Observations.
Context {World : Type} {fs : FileSystem World}.

(** What a caller can see of a path is the same in two states. *)
Definition unchanged_at (p : string) (w w' : World) : Prop :=
  pathExists w' p = pathExists w p ∧ readFile w' p = readFile w p.

(** An action leaves every path outside [tree] as it was. *)
Definition confined_to {A} (tree : string → bool) (m : Eff World A) : Prop :=
  ∀ w r w' p, m w = (r, w') → tree p = false → unchanged_at p w w'.

(** An action leaves the path [p] as it was. *)
Definition leaves_alone {A} (p : string) (m : Eff World A) : Prop :=
  ∀ w r w', m w = (r, w') → unchanged_at p w w'.

Context {dirs : DirOps World}.

(** [remove] succeeds, and the path is gone afterwards. *)
Definition remove_deletes : Prop :=
  ∀ p w, ∃ w', remove p w = (Ok tt, w') ∧ pathExists w' p = false.

(** [remove] touches nothing but the directory it is given. *)
Definition remove_confined : Prop :=
  ∀ dir, confined_to (within dir) (remove dir).

End Observations.

Section ExportVocabulary.
Import ExportProject.
Context {paths : PathOps} {World Dependencies : Type} {fs : FileSystem World}
        {collab : Collaborators World Dependencies}.

(** The state [exportProject] starts from: [staging] is declared and not
    assigned, nothing is logged. *)
Definition initial (w : World) : State World :=
  {| world := w; staging := None; logged := [] |}.

(** The stages that precede the staging part got through: the project is
    loaded, a target is chosen and the dependencies are fetched. *)
Definition reaches_staging (options : ExportOptions) (w : World)
    (project : Project) (target0 : Target) (deps : Dependencies) (w2 : World) : Prop :=
  ∃ w1,
    loadProject w = (Ok project, w1)
    ∧ (truthy_opt (target options) = true
       ∨ is_Some (manifest_target (project_manifest project)))
    ∧ chooseTarget options project = Some target0
    ∧ fetchDependencies project w1 = (Ok deps, w2).

(** The run ends before the [try] block with the error [e] and the file
    system [w']: the project fails to load, there is no target to work on,
    no target of the type asked for, or fetching the dependencies fails. *)
Definition throws_early (options : ExportOptions) (w : World) (e : Error)
    (w' : World) : Prop :=
  loadProject w = (Err e, w')
  ∨ ∃ project w1,
      loadProject w = (Ok project, w1)
      ∧ ((truthy_opt (target options) = false
          ∧ manifest_target (project_manifest project) = None
          ∧ e = CliError "export-no-target"
                  ("No default target found for project," +:+ LF +:+
                   "use --target TYPE to export from a specific target.")
          ∧ w' = w1)
         ∨ ((truthy_opt (target options) = true
             ∨ is_Some (manifest_target (project_manifest project)))
            ∧ ((chooseTarget options project = None
                ∧ e = CliError "export-no-matching"
                        ("No matching target found for type " +:+ DQ +:+
                         default EmptyString (target options) +:+ DQ +:+ " in project.")
                ∧ w' = w1)
               ∨ (∃ target0,
                    chooseTarget options project = Some target0
                    ∧ fetchDependencies project w1 = (Err e, w'))))).

End ExportVocabulary.

Section StagingVocabulary.
Import ExportProject.
Context {paths : PathOps}.

(** The directory the [try] block assigns to [staging]. *)
Definition stagingDir (options : ExportOptions) (project : Project) : string :=
  if negb (truthy_opt (completed options))
  then join (paths_staging project) "export"
  else default EmptyString (completed options).

End StagingVocabulary.

Section ValidityVocabulary.
Context {env : LockfileEnv}.

(** The entry a by-name index holds for a name: the last one of the list
    under that name (the only one when names are unique). *)
Definition lastNamed {A} (key : A → string) (items : list A) (n : string) : option A :=
  last (filter (fun item => key item = n) items).

(** Two git dependencies agree on their ref: the first of [rev], [tag],
    [branch] that both carry has the same value in both. *)
Definition sameRef (current locked : GitDependency) : Prop :=
  match git_rev current, git_rev locked with
  | Some a, Some b => a = b
  | _, _ =>
  match git_tag current, git_tag locked with
  | Some a, Some b => a = b
  | _, _ =>
  match git_branch current, git_branch locked with
  | Some a, Some b => a = b
  | _, _ => False
  end end end.

(** Some discriminator is carried by both with the same value. *)
Definition someRefEqual (current locked : GitDependency) : Prop :=
  (∃ a, git_rev current = Some a ∧ git_rev locked = Some a)
  ∨ (∃ a, git_tag current = Some a ∧ git_tag locked = Some a)
  ∨ (∃ a, git_branch current = Some a ∧ git_branch locked = Some a).

(** Exactly one of [rev], [tag], [branch] is present. *)
Definition oneRef (d : GitDependency) : Prop :=
  match git_rev d, git_tag d, git_branch d with
  | Some _, None, None | None, Some _, None | None, None, Some _ => True
  | _, _, _ => False
  end.

(** A locked dependency is satisfied by a current one. *)
Definition satisfiedBy (current locked : Dependency) : Prop :=
  match locked, current with
  | Registry c, Registry v => satisfiesSemver (reg_version c) (reg_version v) = true
  | Path c, Path v =>
      path_path v = path_path c
      ∧ ∃ manifest, loadManifest (path_path v) = Ok manifest
                    ∧ Some (manifest_version manifest) = path_version c
  | Git c, Git v => sameRef v c
  | _, _ => False
  end.

(** Dependency sets match: equal counts, and each locked dependency is
    satisfied by the current dependency of its name. *)
Definition dependenciesMatch (current locked : list Dependency) : Prop :=
  length current = length locked
  ∧ ∀ d, d ∈ locked →
      ∃ c, lastNamed dep_name current (dep_name d) = Some c ∧ satisfiedBy c d.

Definition snapshotMatches (current locked : Snapshot) : Prop :=
  snap_name current = snap_name locked
  ∧ snap_version current = snap_version locked
  ∧ dependenciesMatch (snap_dependencies current) (snap_dependencies locked).

Definition versionIsCurrent (lockfile : Lockfile) : Prop :=
  ∃ m, metadata lockfile = Some m ∧ meta_version m = LOCKFILE_VERSION.

(** Every member of the lockfile matches the workspace member of its
    name. *)
Definition membersMatch (lockfile : Lockfile) (workspace0 : Workspace) : Prop :=
  ∀ member, member ∈ members (workspace lockfile) →
    ∃ currentMember,
      lastNamed snap_name (members workspace0) (snap_name member) = Some currentMember
      ∧ snapshotMatches currentMember member.

(** Validity as the specification words it: (a), (b) and (c). *)
Definition validAsWorded (lockfile : Lockfile) (workspace0 : Workspace) : Prop :=
  versionIsCurrent lockfile
  ∧ snapshotMatches (root workspace0) (root (workspace lockfile))
  ∧ membersMatch lockfile workspace0.

(** Validity with the member counts compared as well. *)
Definition validLockfile (lockfile : Lockfile) (workspace0 : Workspace) : Prop :=
  versionIsCurrent lockfile
  ∧ snapshotMatches (root workspace0) (root (workspace lockfile))
  ∧ length (members (workspace lockfile)) = length (members workspace0)
  ∧ membersMatch lockfile workspace0.

End ValidityVocabulary.

(** A package entry of a lockfile that lacks its name, version or source,
    or whose [dependencies] is no array. *)
Definition invalidPackage (entry : Toml) : Prop :=
  has entry "name" = false
  ∨ has entry "version" = false
  ∨ has entry "source" = false
  ∨ isArray (field entry "dependencies") = false.

Section RoundTripVocabulary.
Context {paths : PathOps} {regs : RegistrationOps} {codec : TomlCodec}
        {env : LockfileEnv}.

(** Every dependency a lockfile holds: of the root, of the members and of
    the packages. *)
Definition allDependencies (lockfile : Lockfile) : list Dependency :=
  snap_dependencies (root (workspace lockfile))
  ++ (members (workspace lockfile) ≫= snap_dependencies)
  ++ (packages lockfile ≫= dependencies).

Definition noSpace (s : string) : Prop := beforeSpace s = s.

(** What the codec relies on in a resolved lockfile: every dependency
    names a package of the graph, by a name without a space; names,
    versions and the stored sources are not empty. *)
Record lockable (lockfile : Lockfile) (dir : string) : Prop := {
  lockable_dependencies :
    ∀ d, d ∈ allDependencies lockfile →
      dep_name d ∈ name <$> packages lockfile ∧ noSpace (dep_name d);
  lockable_packages :
    ∀ r, r ∈ packages lockfile →
      truthy (name r) = true ∧ truthy (version r) = true
      ∧ truthy (prepareSource (source r) dir) = true;
  lockable_snapshots :
    ∀ s, s ∈ root (workspace lockfile) :: members (workspace lockfile) →
      truthy (snap_name s) = true ∧ truthy (snap_version s) = true
}.

(** The parser reads back the document [toToml] writes for the lockfile. *)
Definition readsBack (lockfile : Lockfile) (dir : string) : Prop :=
  ∀ value, toTomlValue lockfile dir = Ok value →
    parseToml (header +:+ convertToToml value) = Ok value.

(** The lockfile after [toToml] has sorted its packages in place. *)
Definition sorted (lockfile : Lockfile) : Lockfile :=
  {| metadata := metadata lockfile;
     workspace := workspace lockfile;
     packages := sortByName (packages lockfile) |}.

(** A package as [fromToml] rebuilds it from its stored fields. *)
Definition rehydratedHead (dir : string) (r : Registration) : RegistrationHead :=
  {| head_id := getRegistrationId (name r) (version r);
     head_name := name r;
     head_version := version r;
     head_source := getSource (prepareSource (source r) dir) dir |}.

(** The dependency that stands for [d] after reading: the one derived
    from the package of its name. *)
Definition lockedDependency (dir : string) (graph : DependencyGraph) (d : Dependency)
  : Dependency :=
  default d (toDependency ∘ rehydratedHead dir <$> lastNamed name graph (dep_name d)).

Definition lockedSnapshot (dir : string) (graph : DependencyGraph) (s : Snapshot)
  : Snapshot :=
  {| snap_name := snap_name s;
     snap_version := snap_version s;
     snap_dependencies := lockedDependency dir graph <$> snap_dependencies s |}.

Definition lockedRegistration (dir : string) (graph : DependencyGraph) (r : Registration)
  : Registration :=
  {| id := head_id (rehydratedHead dir r);
     name := name r;
     version := version r;
     source := head_source (rehydratedHead dir r);
     dependencies := lockedDependency dir graph <$> dependencies r |}.

(** The lockfile [fromToml] returns for the text of [lockfile]. *)
Definition lockedView (dir : string) (lockfile : Lockfile) : Lockfile :=
  {| metadata := Some {| meta_version := LOCKFILE_VERSION |};
     workspace :=
       {| root := lockedSnapshot dir (packages lockfile) (root (workspace lockfile));
          members := lockedSnapshot dir (packages lockfile)
                     <$> members (workspace lockfile) |};
     packages := lockedRegistration dir (packages lockfile) <$> packages lockfile |}.

(** The index of the first pass, for the packages read so far. *)
Definition lockedIndex (dir : string) (graph : DependencyGraph)
    (byName : gmap string Dependency) : gmap string Dependency :=
  foldl (fun m r => <[name r := toDependency (rehydratedHead dir r)]> m) byName graph.

(** The id [toDependencyId] returns when the package is found. *)
Definition dependencyId (graph : DependencyGraph) (dir : string) (d : Dependency) : string :=
  match getRegistration graph d with
  | Some registration =>
      dep_name d +:+ " " +:+ version registration +:+ " " +:+
      (if String.eqb (sp_type (getSourceParts (source registration))) "path"
       then getRegistrationSource (sp_type (getSourceParts (source registration)))
              (trailing (relative dir (sp_value (getSourceParts (source registration)))))
              (sp_details (getSourceParts (source registration)))
       else source registration)
  | None => EmptyString
  end.

(** The tables of the document. *)
Definition snapshotTree (graph : DependencyGraph) (dir : string) (s : Snapshot) : Toml :=
  VTable [("name", VString (snap_name s));
          ("version", VString (snap_version s));
          ("dependencies",
           VArray (VString <$> (dependencyId graph dir <$> snap_dependencies s)))].

Definition packageTree (graph : DependencyGraph) (dir : string) (r : Registration) : Toml :=
  VTable [("name", VString (name r));
          ("version", VString (version r));
          ("source", VString (prepareSource (source r) dir));
          ("dependencies",
           VArray (VString <$> (dependencyId graph dir <$> dependencies r)))].

Definition lockfileTree (lockfile : Lockfile) (dir : string) : Toml :=
  VTable [("metadata", VTable [("version", VString LOCKFILE_VERSION)]);
          ("root", snapshotTree (packages lockfile) dir (root (workspace lockfile)));
          ("members",
           VArray (snapshotTree (packages lockfile) dir <$> members (workspace lockfile)));
          ("packages",
           VArray (packageTree (sortByName (packages lockfile)) dir
                   <$> sortByName (packages lockfile)))].

End RoundTripVocabulary.

Section ManifestVocabulary.
Import ApplyChangeset.
Context {paths : PathOps} {patch : PatchManifest}.

(** The test of [findIndex] in [updateManifest]. *)
Definition named (n : string) (source0 : Source) : bool :=
  String.eqb (src_name source0) n.

(** The list without its first entry of the given name. *)
Fixpoint without_first (n : string) (src : list Source) : list Source :=
  match src with
  | [] => []
  | x :: rest => if named n x then rest else x :: without_first n rest
  end.

(** The entry the first loop pushes for an added component. *)
Definition newSource (dir : string) (c : Component) : Source :=
  {| src_name := component_name c;
     src_path := join dir ("src/" +:+ component_filename c) |}.

(** [project.manifest.src] once [updateManifest] is done. *)
Definition src_after (project : Project) (changeset : Changeset) : list Source :=
  manifest_src (project_manifest (fst (updateManifest project changeset))).

End ManifestVocabulary.

(* ------------------------------------------------------------------ *)
(** ** Instances for closed examples *)
(* ------------------------------------------------------------------ *)

(** A file system that is the list of the paths that exist; every file
    reads as the empty text. *)
Definition listFiles : FileSystem (list string) := {|
  pathExists := fun w p => bool_decide (p ∈ w);
  readFile := fun w p => Ok EmptyString;
  writeFile := fun p text w => Ok (p :: w)
|}.
Definition listDirs : DirOps (list string) := {|
  ensureDir := fun p w => (Ok tt, p :: w);
  emptyDir := fun p w => (Ok tt, filter (fun q => negb (String.prefix (p +:+ "/") q)) w);
  remove := fun p w => (Ok tt, filter (fun q => negb (within p q)) w);
  ensureDirSync := fun p w => (Ok tt, p :: w)
|}.

Definition macProcess : Cache.Process :=
  {| Cache.platform := "darwin"; Cache.homedir := "/Users/me" |}.
Definition windowsProcess : Cache.Process :=
  {| Cache.platform := "win32"; Cache.homedir := "C:/Users/me" |}.
Definition macCache : string :=
  "/Users/me/Library/Group Containers/UBF8T346G9.Office/.vba-blocks".

(** A project with two modules and no default target, in [/book]. *)
Definition twoModules : Project :=
  {| project_manifest :=
       {| manifest_name := "book"; manifest_version := "1.0.0";
          manifest_src := [ {| src_name := "Module1"; src_path := "/book/src/Module1.bas" |};
                            {| src_name := "Module2"; src_path := "/book/src/Module2.bas" |} ];
          manifest_target := None; manifest_dependencies := [] |};
     paths_dir := "/book"; paths_staging := "/cache/staging" |}.

(** Collaborators that load [twoModules], fetch nothing, export one
    module into the staging directory, and fold one module back into the
    project; folding back fails when the staging directory holds no
    module. *)
Definition bookCollaborators : ExportProject.Collaborators (list string) unit := {|
  ExportProject.loadProject := fun w => (Ok twoModules, w);
  ExportProject.fetchDependencies := fun _ w => (Ok tt, w);
  ExportProject.exportTo := fun _ _ dir _ w => (Ok tt, (dir +:+ "/Module1.bas") :: w);
  ExportProject.exportTarget := fun _ _ _ dir w =>
    if bool_decide (dir +:+ "/Module1.bas" ∈ w)
    then (Ok tt, "/book/src/Module1.bas" :: w)
    else (Err (EnvError "nothing to fold back"), w)
|}.

(** The same collaborators with a bridge whose export fails. *)
Definition failingBridge : ExportProject.Collaborators (list string) unit := {|
  ExportProject.loadProject := fun w => (Ok twoModules, w);
  ExportProject.fetchDependencies := fun _ w => (Ok tt, w);
  ExportProject.exportTo := fun _ _ dir _ w => (Err (EnvError "target-export-failed"), w);
  ExportProject.exportTarget := fun _ _ _ dir w => (Ok tt, w)
|}.

Definition exportXlsm (completed0 : option string) : ExportProject.ExportOptions :=
  {| ExportProject.target := Some "xlsm";
     ExportProject.completed := completed0;
     ExportProject.addin := None |}.

(** Semver matching for closed examples: an exact version, or one of the
    1.x versions for the range [^1.0.0]. A manifest for [/book/lib]. *)
Definition exampleEnv : LockfileEnv := {|
  satisfiesSemver := fun version0 range =>
    String.eqb version0 range
    || (String.eqb range "^1.0.0"
        && (String.eqb version0 "1.0.0" || String.eqb version0 "1.1.0"
            || String.eqb version0 "1.2.0"));
  loadManifest := fun dir =>
    if String.eqb dir "/book/lib"
    then Ok {| manifest_name := "lib"; manifest_version := "0.2.0";
               manifest_src := []; manifest_target := None;
               manifest_dependencies := [] |}
    else Err (CliError "manifest-not-found" dir);
  VBA_BLOCKS_VERSION := "0.1.0"
|}.

Definition fooRange : Dependency :=
  Registry {| reg_name := "foo"; reg_version := "^1.0.0"; reg_registry := "default" |}.
Definition fooLocked : Dependency :=
  Registry {| reg_name := "foo"; reg_version := "1.1.0"; reg_registry := "default" |}.
Definition libPath (version0 : option string) : Dependency :=
  Path {| path_name := "lib"; path_path := "/book/lib"; path_version := version0 |}.

Definition bookSnapshot (deps : list Dependency) : Snapshot :=
  {| snap_name := "book"; snap_version := "1.0.0"; snap_dependencies := deps |}.
Definition toolsSnapshot : Snapshot :=
  {| snap_name := "tools"; snap_version := "0.3.0"; snap_dependencies := [] |}.

Definition fooPackage : Registration :=
  {| id := "foo@1.1.0"; name := "foo"; version := "1.1.0";
     source := "registry+default"; dependencies := [] |}.

(** A lockfile of the book with no member, and one with the member
    [tools]. *)
Definition lockedBook (deps : list Dependency) (members0 : list Snapshot) : Lockfile :=
  {| metadata := Some {| meta_version := "1" |};
     workspace := {| root := bookSnapshot deps; members := members0 |};
     packages := [fooPackage] |}.

(** A file system that is a list of paths with their texts, the latest
    write first. *)
Definition textFiles : FileSystem (list (string * string)) := {|
  pathExists := fun w p => bool_decide (is_Some (assoc p w));
  readFile := fun w p =>
    match assoc p w with
    | Some text => Ok text
    | None => Err (EnvError "ENOENT")
    end;
  writeFile := fun p text w => Ok ((p, text) :: w)
|}.

(** Source strings [type+value#details] and ids [name@version], for closed
    examples. *)
Fixpoint beforeChar (c : ascii) (s : string) : string :=
  match s with
  | EmptyString => EmptyString
  | String x rest => if Ascii.eqb x c then EmptyString else String x (beforeChar c rest)
  end.
Fixpoint afterChar (c : ascii) (s : string) : option string :=
  match s with
  | EmptyString => None
  | String x rest => if Ascii.eqb x c then Some rest else afterChar c rest
  end.
Definition simpleRegistrations : RegistrationOps := {|
  getRegistrationId := fun name0 version0 => name0 +:+ "@" +:+ version0;
  getRegistrationSource := fun type value details =>
    type +:+ "+" +:+ value +:+
    match details with
    | Some d => "#" +:+ d
    | None => EmptyString
    end;
  getSourceParts := fun source0 =>
    let rest := default EmptyString (afterChar "+" source0) in
    {| sp_type := beforeChar "+" source0;
       sp_value := beforeChar "#" rest;
       sp_details := afterChar "#" rest |};
  toDependency := fun registration =>
    let rest := default EmptyString (afterChar "+" (head_source registration)) in
    let type := beforeChar "+" (head_source registration) in
    if String.eqb type "registry"
    then Registry {| reg_name := head_name registration;
                     reg_version := head_version registration;
                     reg_registry := beforeChar "#" rest |}
    else if String.eqb type "git"
    then Git {| git_name := head_name registration;
                git_git := beforeChar "#" rest;
                git_rev := afterChar "#" rest;
                git_tag := None; git_branch := None |}
    else Path {| path_name := head_name registration;
                 path_path := beforeChar "#" rest;
                 path_version := Some (head_version registration) |}
|}.

(** The lockfile text of the book, and a codec that knows this one
    document. *)
Definition bookText : string :=
  "[metadata]" +:+ LF +:+ "version = '1'" +:+ LF +:+ LF +:+
  "[root]" +:+ LF +:+ "name = 'book'" +:+ LF +:+ "version = '1.0.0'" +:+ LF +:+
  "dependencies = ['foo 1.1.0 registry+default']" +:+ LF +:+ LF +:+
  "[[packages]]" +:+ LF +:+ "name = 'foo'" +:+ LF +:+ "version = '1.1.0'" +:+ LF +:+
  "source = 'registry+default'" +:+ LF +:+ "dependencies = []" +:+ LF.
Definition bookTree : Toml :=
  VTable [("metadata", VTable [("version", VString "1")]);
          ("root", VTable [("name", VString "book"); ("version", VString "1.0.0");
                           ("dependencies", VArray [VString "foo 1.1.0 registry+default"])]);
          ("members", VArray []);
          ("packages", VArray [VTable [("name", VString "foo"); ("version", VString "1.1.0");
                                       ("source", VString "registry+default");
                                       ("dependencies", VArray [])]])].
Definition bookCodec : TomlCodec := {|
  convertToToml := fun _ => bookText;
  parseToml := fun text =>
    if String.eqb text ("# Auto-generated by vba-blocks 0.1.0" +:+ LF +:+ bookText)
    then Ok bookTree
    else Err (EnvError "not the lockfile of the book")
|}.

(** A codec whose document has a package entry without [source]. *)
Definition sourcelessTree : Toml :=
  VTable [("metadata", VTable [("version", VString "1")]);
          ("root", VTable [("name", VString "book"); ("version", VString "1.0.0");
                           ("dependencies", VArray [])]);
          ("packages", VArray [VTable [("name", VString "foo"); ("version", VString "1.1.0");
                                       ("dependencies", VArray [])]])].
Definition sourcelessCodec : TomlCodec := {|
  convertToToml := fun _ => bookText;
  parseToml := fun _ => Ok sourcelessTree
|}.

Definition bookLockText : string :=
  "# Auto-generated by vba-blocks 0.1.0" +:+ LF +:+ bookText.

Section ManifestExamples.
Import ApplyChangeset.

Definition removeOnly (names : list string) : Changeset :=
  {| components :=
       {| added := []; changed := [];
          removed := (fun n => {| component_name := n;
                                  component_filename := n +:+ ".bas" |}) <$> names |} |}.

End ManifestExamples.

Definition noPatch : ApplyChangeset.PatchManifest := {|
  ApplyChangeset.addSource := fun _ source0 => "add " +:+ src_name source0;
  ApplyChangeset.removeSource := fun _ n => "remove " +:+ n
|}.

(* ------------------------------------------------------------------ *)
(** ** [packages/cli/src/utils/download.ts], first document: [download] *)
(* ------------------------------------------------------------------ *)
Module Download.

(** [response.headers.location]: absent, one value, or an array. *)
Inductive Location : Type :=
  | NoLocation
  | OneLocation (value : string)
  | ManyLocations (values : list string).

(** What the handler reads of a response; [statusMessage] is the text the
    template literal interpolates. *)
Record Response := {
  statusCode : option nat;
  statusMessage : string;
  location : Location;
  body : string
}.

(** How the promise [download] returns ends. [Pending] is a promise that
    is not settled after the hops the fuel allows. *)
Inductive Settled : Type :=
  | Resolved
  | Rejected (e : Error)
  | Pending.

(** [https.get(url, handler)]: the response the handler is called with, or
    the error the request emits; [dirname] of [path]; and
    [createWriteStream(dest)] with [response.pipe(file)], which ends in
    [finish] or in [error]. The url is optional because a redirect hands
    on what the [location] header gives. *)
Class Https (World : Type) : Type := {
  get : option string → Response + Error;
  dirname : string → string;
  pipeTo : string → string → Eff World unit
}.

(** [Array.isArray(location) ? location[0] : location]. *)
Definition redirectOf (location0 : Location) : option string :=
  match location0 with
  | NoLocation => None
  | OneLocation value => Some value
  | ManyLocations values => head values
  end.

Section Download.
Context {World : Type} {dirs : DirOps World} {https : Https World}.

(** The writing branch of the handler. *)
Definition saveBody (response : Response) (dest : string) (w : World)
  : Settled * World :=
  match pipeTo dest (body response) w with
  | (Ok _, w') => (Resolved, w')
  | (Err e, w') => (Rejected e, w')
  end.

(** [download(url, dest)]; each hop of a redirect is one recursive call
    and takes one unit of fuel. A plain [Error] is an [EnvError]. *)
Fixpoint download (fuel : nat) (url : option string) (dest : string) (w : World)
  : Settled * World :=
  match fuel with
  | O => (Pending, w)
  | S fuel' =>
      match ensureDir (dirname dest) w with
      | (Err e, w1) => (Rejected e, w1)
      | (Ok _, w1) =>
          match get url with
          | inr e => (Rejected e, w1)
          | inl response =>
              match statusCode response with
              | Some code =>
                  if (400 <=? code)%nat
                  then (Rejected (EnvError (pretty code +:+ " " +:+ statusMessage response)),
                        w1)
                  else if (300 <=? code)%nat
                  then download fuel' (redirectOf (location response)) dest w1
                  else saveBody response dest w1
              | None => saveBody response dest w1
              end
          end
      end
  end.

End Download.
End Download.

(* ------------------------------------------------------------------ *)
(** ** Vocabulary of the further properties *)
(* ------------------------------------------------------------------ *)

(** The head of a registration: its four scalar fields. *)
Definition headOf (r : Registration) : RegistrationHead :=
  {| head_id := id r; head_name := name r;
     head_version := version r; head_source := source r |}.

(** Registrations in non-decreasing order of their names. *)
Definition sortedByName (graph : DependencyGraph) : Prop :=
  StronglySorted (fun a b => String.le (name a) (name b)) graph.

(** Two workspaces that differ in the order of the root's dependencies and
    in the order of the members only. *)
Definition reordered (w1 w2 : Workspace) : Prop :=
  snap_name (root w1) = snap_name (root w2)
  ∧ snap_version (root w1) = snap_version (root w2)
  ∧ snap_dependencies (root w1) ≡ₚ snap_dependencies (root w2)
  ∧ members w1 ≡ₚ members w2.

Section ReadingVocabulary.
Context {regs : RegistrationOps}.

(** What the first pass guarantees of a package it accepts. *)
Definition acceptedHead (h : RegistrationHead) : Prop :=
  truthy (head_name h) = true ∧ truthy (head_version h) = true
  ∧ head_id h = getRegistrationId (head_name h) (head_version h).

End ReadingVocabulary.

(** The fields of the manifest that the loops do not assign. *)
Definition sameButSrc (m m' : Manifest) : Prop :=
  manifest_name m' = manifest_name m
  ∧ manifest_version m' = manifest_version m
  ∧ manifest_target m' = manifest_target m
  ∧ manifest_dependencies m' = manifest_dependencies m.

Section DownloadVocabulary.
Import Download.
Context {World : Type} {https : Https World}.

(** The response is written to disk: a status below 300, or none. *)
Definition saves (response : Response) : Prop :=
  match statusCode response with
  | Some code => (code < 300)%nat
  | None => True
  end.

(** The response is a redirect: a status from 300 to 399. *)
Definition redirects (response : Response) : Prop :=
  ∃ code, statusCode response = Some code ∧ (300 ≤ code < 400)%nat.

(** From [url], [n] redirects lead to the response [final], which is
    written. *)
Inductive follows : nat → option string → Response → Prop :=
  | follows_here url response :
      get url = inl response → saves response → follows 0 url response
  | follows_redirect n url response final :
      get url = inl response → redirects response →
      follows n (redirectOf (location response)) final →
      follows (S n) url final.

End DownloadVocabulary.

(* ------------------------------------------------------------------ *)
(** ** Instances for the further examples *)
(* ------------------------------------------------------------------ *)

(** A file system whose [remove] fails and leaves everything in place. *)
Definition stuckDirs : DirOps (list string) := {|
  ensureDir := fun p w => (Ok tt, p :: w);
  emptyDir := fun p w => (Ok tt, w);
  remove := fun p w => (Err (EnvError "EBUSY"), w);
  ensureDirSync := fun p w => (Ok tt, p :: w)
|}.

(** The book with a default target of type [xlsm]. *)
Definition xlsmTarget : Target :=
  {| target_type := "xlsm"; target_name := "book"; target_path := "targets/xlsm";
     target_filename := "book.xlsm"; target_blank := false |}.
Definition xlsmBook : Project :=
  {| project_manifest :=
       {| manifest_name := "book"; manifest_version := "1.0.0";
          manifest_src := [];
          manifest_target := Some xlsmTarget; manifest_dependencies := [] |};
     paths_dir := "/book"; paths_staging := "/cache/staging" |}.
Definition xlsmCollaborators : ExportProject.Collaborators (list string) unit := {|
  ExportProject.loadProject := fun w => (Ok xlsmBook, w);
  ExportProject.fetchDependencies := fun _ w => (Ok tt, "/cache/sources" :: w);
  ExportProject.exportTo := fun _ _ dir _ w => (Ok tt, (dir +:+ "/Module1.bas") :: w);
  ExportProject.exportTarget := fun _ _ _ dir w => (Ok tt, "/book/src/Module1.bas" :: w)
|}.

(** A lockfile whose packages are out of order, one depending on the
    other. *)
Definition zetaPackage : Registration :=
  {| id := "zeta@2.0.0"; name := "zeta"; version := "2.0.0";
     source := "registry+default";
     dependencies := [Registry {| reg_name := "alpha"; reg_version := "^0.1.0";
                                  reg_registry := "default" |}] |}.
Definition alphaPackage : Registration :=
  {| id := "alpha@0.1.0"; name := "alpha"; version := "0.1.0";
     source := "registry+default"; dependencies := [] |}.
Definition unsortedLock : Lockfile :=
  {| metadata := None;
     workspace :=
       {| root := bookSnapshot [Registry {| reg_name := "zeta"; reg_version := "^2.0.0";
                                            reg_registry := "default" |}];
          members := [] |};
     packages := [zetaPackage; alphaPackage] |}.

(** A lockfile whose root depends on a package the graph does not hold. *)
Definition danglingLock : Lockfile :=
  {| metadata := None;
     workspace := {| root := bookSnapshot [fooRange]; members := [] |};
     packages := [] |}.

(** The directory part of a path with separators [/]. *)
Fixpoint dirnameOf (s : string) : string :=
  match s with
  | EmptyString => EmptyString
  | String c rest => if includes "/" rest then String c (dirnameOf rest) else EmptyString
  end.

(** A network of five addresses: two redirects in a row to a tarball, a
    missing page, and an address that redirects to itself. Writing a body
    creates the file. *)
Definition redirectTo (status : nat) (location0 : Download.Location) : Download.Response :=
  {| Download.statusCode := Some status; Download.statusMessage := "Found";
     Download.location := location0; Download.body := EmptyString |}.
Definition tarball : Download.Response :=
  {| Download.statusCode := Some 200%nat; Download.statusMessage := "OK";
     Download.location := Download.NoLocation; Download.body := "tarball bytes" |}.
Definition smallNet : Download.Https (list string) := {|
  Download.get := fun url =>
    match url with
    | Some u =>
        if String.eqb u "https://a/foo.tgz"
        then inl (redirectTo 302 (Download.OneLocation "https://b/foo.tgz"))
        else if String.eqb u "https://b/foo.tgz"
        then inl (redirectTo 301
                    (Download.ManyLocations ["https://c/foo.tgz"; "https://d/foo.tgz"]))
        else if String.eqb u "https://c/foo.tgz" then inl tarball
        else if String.eqb u "https://loop/foo.tgz"
        then inl (redirectTo 302 (Download.OneLocation "https://loop/foo.tgz"))
        else inl {| Download.statusCode := Some 404%nat;
                    Download.statusMessage := "Not Found";
                    Download.location := Download.NoLocation;
                    Download.body := EmptyString |}
    | None => inr (TypeError "no url")
    end;
  Download.dirname := dirnameOf;
  Download.pipeTo := fun dest body0 w => (Ok tt, dest :: w)
|}.

(** The document of the book without [metadata], and a codec that reads
    the lockfile text of the book as its document and any other text as
    this one. *)
Definition unversionedTree : Toml :=
  VTable [("root", VTable [("name", VString "book"); ("version", VString "1.0.0");
                           ("dependencies", VArray [VString "foo 1.1.0 registry+default"])]);
          ("members", VArray []);
          ("packages", VArray [VTable [("name", VString "foo"); ("version", VString "1.1.0");
                                       ("source", VString "registry+default");
                                       ("dependencies", VArray [])]])].
Definition versionsCodec : TomlCodec := {|
  convertToToml := fun _ => bookText;
  parseToml := fun text =>
    if String.eqb text ("# Auto-generated by vba-blocks 0.1.0" +:+ LF +:+ bookText)
    then Ok bookTree
    else Ok unversionedTree
|}.

(** A package whose name has a space, and a dependency on it. *)
Definition spacedPackage : Registration :=
  {| id := "my lib@1.0.0"; name := "my lib"; version := "1.0.0";
     source := "registry+default"; dependencies := [] |}.
Definition spacedRange : Dependency :=
  Registry {| reg_name := "my lib"; reg_version := "^1.0.0"; reg_registry := "default" |}.

(** A path dependency on a directory that holds no manifest. *)
Definition elsewhere (version0 : option string) : Dependency :=
  Path {| path_name := "ext"; path_path := "/elsewhere"; path_version := version0 |}.

(** The blank target of type [xlsm] for the book. *)
Definition blankXlsm : Target :=
  {| target_type := "xlsm"; target_name := "book"; target_path := "targets/xlsm";
     target_filename := sanitize (PathOps:=simplePaths) "book" +:+ ".xlsm";
     target_blank := true |}.

(* ================================================================== *)
(** * Part II: properties *)
(* ================================================================== *)

(* ------------------------------------------------------------------ *)
(** ** The [resolve-failed] message *)
(* ------------------------------------------------------------------ *)

(** C4 (code evaluated at the failing input). The renderer of
    [resolve-failed] returns the same two sentences for every [details]
    value, and for a [details] value reporting the conflict on [bar] the
    rendered message does not mention [bar]. *)
Theorem resolve_failed_drops_details :
  (∀ details,
     Reporter.errors (Reporter.resolve_failed details)
     = "Unable to resolve dependency graph for project." +:+ LF +:+ LF +:+
       "There are dependencies that cannot be satisfied.")
  ∧ includes "bar"
      (Reporter.errors
         (Reporter.resolve_failed (Some "bar ^1.0.0 and bar ^2.0.0 cannot both be met")))
    = false.
Proof. split; [intros details; reflexivity | vm_compute; reflexivity]. Qed.

(* ------------------------------------------------------------------ *)
(** ** The [path] source backend *)
(* ------------------------------------------------------------------ *)

(** C5 (code evaluated at the failing input). For the path dependency
    [lib] at [/work/lib], [resolve] returns no registration and [fetch]
    returns the empty string, which is not the path; both ignore their
    arguments altogether. *)
Theorem path_backend_is_unimplemented :
  let dependency := Path {| path_name := "lib"; path_path := "/work/lib";
                            path_version := None |} in
  let registration := {| id := "lib@1.0.0"; name := "lib"; version := "1.0.0";
                         source := "path+/work/lib"; dependencies := [] |} in
  PathSource.matches (@PathSource.path unit) (inr dependency) = true
  ∧ PathSource.resolve PathSource.path tt dependency = []
  ∧ PathSource.fetch PathSource.path tt registration = EmptyString
  ∧ PathSource.fetch PathSource.path tt registration ≠ "/work/lib"
  ∧ (∀ Config (config : Config) d r,
       PathSource.resolve PathSource.path config d = []
       ∧ PathSource.fetch PathSource.path config r = EmptyString).
Proof. repeat split; done. Qed.

(* ------------------------------------------------------------------ *)
(** ** The staging directory *)
(* ------------------------------------------------------------------ *)
Section CacheFacts.
Context {paths : PathOps} {World : Type} {dirs : DirOps World}.

(** C7, as amended. When [ensureDirSync] succeeds: on [win32],
    [getStaging(c)] returns [c] joined with [staging]; on every other
    platform it returns [.vba-blocks] inside the Office group container of
    the home directory, whatever [c] is. *)
Theorem getStaging_by_platform (proc : Cache.Process) (cache : string) (w : World) :
  let container :=
    join (Cache.homedir proc) "Library/Group Containers/UBF8T346G9.Office" in
  (Cache.platform proc = "win32" →
   ∀ w', ensureDirSync (join cache "staging") w = (Ok tt, w') →
         Cache.getStaging proc cache w = (Ok (join cache "staging"), w'))
  ∧ (Cache.platform proc ≠ "win32" →
     ∀ w', ensureDirSync (join container ".vba-blocks") w = (Ok tt, w') →
           Cache.getStaging proc cache w = (Ok (join container ".vba-blocks"), w')).
Proof.
  intros container. unfold Cache.getStaging, ebind, Cache.findMacOfficeContainer.
  split; intros Hp w' Hensure.
  - rewrite Hp. simpl. by rewrite Hensure.
  - destruct (String.eqb_spec (Cache.platform proc) "win32"); [contradiction|].
    fold container. by rewrite Hensure.
Qed.

End CacheFacts.

Lemma getStaging_by_platform_witness :
  Cache.getStaging (paths:=simplePaths) (dirs:=listDirs) macProcess "/anywhere" []
  = (Ok macCache, [macCache])
  ∧ Cache.getStaging (paths:=simplePaths) (dirs:=listDirs) windowsProcess
      "C:/Users/me/AppData/Local/vba-blocks" []
    = (Ok "C:/Users/me/AppData/Local/vba-blocks/staging",
       ["C:/Users/me/AppData/Local/vba-blocks/staging"]).
Proof.
  split.
  - apply (getStaging_by_platform (paths:=simplePaths) (dirs:=listDirs)
             macProcess "/anywhere" []); [discriminate | reflexivity].
  - apply (getStaging_by_platform (paths:=simplePaths) (dirs:=listDirs)
             windowsProcess "C:/Users/me/AppData/Local/vba-blocks" []); reflexivity.
Defined.

(** C7, counterexample. On macOS, with the cache root of the
    specification, [getStaging] returns the cache root itself and not its
    [staging] subdirectory. *)
Lemma getStaging_mac_counterexample :
  fst (Cache.getStaging (paths:=simplePaths) (dirs:=listDirs) macProcess macCache [])
  = Ok macCache
  ∧ (Ok macCache : result string) ≠ Ok (join (PathOps:=simplePaths) macCache "staging").
Proof. split; [reflexivity | discriminate]. Qed.

(* ------------------------------------------------------------------ *)
(** ** The manifest update of [applyChangeset] *)
(* ------------------------------------------------------------------ *)
Section ApplyChangesetFacts.
Import ApplyChangeset.
Context {paths : PathOps} {patch : PatchManifest}.

Lemma findIndex_range {A} (test : A → bool) (l : list A) :
  findIndex test l = -1 ∨ (0 ≤ findIndex test l < Z.of_nat (length l)).
Proof.
  induction l as [|x l IH]; simpl; [by left|].
  destruct (test x); [right; lia|].
  destruct IH as [-> | IH]; [by left|].
  right. destruct (Z.ltb_spec (findIndex test l) 0); lia.
Qed.

Lemma findIndex_absent (n : string) (src : list Source) :
  n ∉ src_name <$> src → findIndex (named n) src = -1.
Proof.
  induction src as [|x src IH]; simpl; [done|].
  intros Hn. apply not_elem_of_cons in Hn as [Hx Hn].
  unfold named at 1. destruct (String.eqb_spec (src_name x) n); [congruence|].
  rewrite (IH Hn). reflexivity.
Qed.

Lemma splice1_last {A} (l : list A) : splice1 (-1) l = removelast l.
Proof.
  unfold splice1. simpl.
  destruct l as [|x l] using rev_ind; [reflexivity|].
  rewrite removelast_last, length_app. simpl.
  replace (Z.to_nat (Z.max (Z.of_nat (length l + 1) + -1) 0)) with (length l) by lia.
  rewrite delete_take_drop, take_app_length.
  rewrite drop_ge by (rewrite length_app; simpl; lia).
  apply app_nil_r.
Qed.

Lemma findIndex_present (n : string) (src : list Source) :
  n ∈ src_name <$> src → 0 ≤ findIndex (named n) src.
Proof.
  induction src as [|x src IH]; simpl; [by intros ?%elem_of_nil|].
  unfold named at 1. destruct (String.eqb_spec (src_name x) n) as [Hx|Hx]; [lia|].
  intros [?|Hn]%elem_of_cons; [congruence|].
  specialize (IH Hn). destruct (Z.ltb_spec (findIndex (named n) src) 0); lia.
Qed.

Lemma splice1_found (n : string) (src : list Source) :
  n ∈ src_name <$> src →
  splice1 (findIndex (named n) src) src = without_first n src.
Proof.
  induction src as [|x src IH]; simpl; [by intros ?%elem_of_nil|].
  intros Hn. destruct (named n x) eqn:Hx; [reflexivity|].
  apply elem_of_cons in Hn as [-> | Hn].
  { unfold named in Hx. rewrite String.eqb_refl in Hx. discriminate. }
  specialize (IH Hn). revert IH. unfold splice1.
  pose proof (findIndex_present n src Hn) as Hpos.
  destruct (findIndex_range (named n) src) as [Hi | Hi]; [lia|].
  destruct (Z.ltb_spec (findIndex (named n) src) 0); [lia|].
  destruct (Z.ltb_spec (findIndex (named n) src + 1) 0); [lia|].
  simpl length.
  replace (Z.to_nat (Z.min (findIndex (named n) src + 1) (Z.of_nat (S (length src)))))
    with (S (Z.to_nat (Z.min (findIndex (named n) src) (Z.of_nat (length src))))) by lia.
  simpl. intros ->. reflexivity.
Qed.

(** One removal, in both cases of the lookup. *)
Lemma removeOne_src (st : Manifest * list string) (c : Component) :
  manifest_src (fst (removeOne st c))
  = if bool_decide (component_name c ∈ src_name <$> manifest_src (fst st))
    then without_first (component_name c) (manifest_src (fst st))
    else removelast (manifest_src (fst st)).
Proof.
  unfold removeOne. simpl. case_bool_decide as Hin.
  - apply (splice1_found _ _ Hin).
  - change (fun source0 => String.eqb (src_name source0) (component_name c))
      with (named (component_name c)).
    rewrite (findIndex_absent _ _ Hin). apply splice1_last.
Qed.

Lemma addOne_fold_src (dir : string) (cs : list Component) (st : Manifest * list string) :
  manifest_src (fst (foldl (addOne dir) st cs))
  = manifest_src (fst st)
    ++ ((fun c => {| src_name := component_name c;
                     src_path := join dir ("src/" +:+ component_filename c) |}) <$> cs).
Proof.
  revert st. induction cs as [|c cs IH]; intros st; simpl.
  - by rewrite app_nil_r.
  - rewrite IH. simpl. by rewrite <-app_assoc.
Qed.

Lemma without_first_sublist (n : string) (src : list Source) :
  without_first n src `sublist_of` src.
Proof.
  induction src as [|x src IH]; simpl; [done|].
  destruct (named n x); [by apply sublist_cons | by apply sublist_skip].
Qed.

Lemma without_first_names (n : string) (src : list Source) :
  n ∈ src_name <$> src →
  src_name <$> src ≡ₚ n :: (src_name <$> without_first n src).
Proof.
  induction src as [|x src IH]; simpl; [by intros ?%elem_of_nil|].
  unfold named at 1. destruct (String.eqb_spec (src_name x) n) as [->|Hx]; [done|].
  intros [?|Hn]%elem_of_cons; [congruence|].
  simpl. rewrite (IH Hn). apply Permutation_swap.
Qed.

Lemma without_first_other (n : string) (keep : Source → Prop)
    `{∀ x, Decision (keep x)} (src : list Source) :
  (∀ x, keep x → src_name x ≠ n) →
  filter keep (without_first n src) = filter keep src.
Proof.
  intros Hkeep. induction src as [|x src IH]; simpl; [done|].
  unfold named at 1. destruct (String.eqb_spec (src_name x) n) as [Hx|Hx].
  - rewrite filter_cons_False; [done|]. intros ?%Hkeep. congruence.
  - rewrite !filter_cons. by rewrite IH.
Qed.

Lemma filter_not_elem_of_cons {A} (f : A → string) (a : string) (l : list string)
    (xs : list A) :
  filter (fun x => f x ∉ a :: l) xs
  = filter (fun x => f x ≠ a) (filter (fun x => f x ∉ l) xs).
Proof.
  rewrite list_filter_filter. apply list_filter_iff.
  intros x. rewrite not_elem_of_cons. tauto.
Qed.

(** The second loop, when every lookup finds its entry. *)
Lemma removeOne_fold (cs : list Component) (st : Manifest * list string) :
  component_name <$> cs ⊆+ src_name <$> manifest_src (fst st) →
  let src1 := manifest_src (fst (foldl removeOne st cs)) in
  src1 = foldl (fun src c => without_first (component_name c) src)
               (manifest_src (fst st)) cs
  ∧ src1 `sublist_of` manifest_src (fst st)
  ∧ src_name <$> manifest_src (fst st)
    ≡ₚ (component_name <$> cs) ++ (src_name <$> src1)
  ∧ filter (fun s => src_name s ∉ component_name <$> cs) src1
    = filter (fun s => src_name s ∉ component_name <$> cs) (manifest_src (fst st)).
Proof.
  revert st. induction cs as [|c cs IH]; intros st Hsub src1; subst src1.
  { repeat split; done. }
  cbn [foldl]. rewrite fmap_cons in Hsub |- *.
  assert (component_name c ∈ src_name <$> manifest_src (fst st)) as Hin.
  { eapply elem_of_submseteq; [|exact Hsub]. left. }
  pose proof (removeOne_src st c) as Hstep.
  rewrite bool_decide_eq_true_2 in Hstep by done.
  pose proof (without_first_names _ _ Hin) as Hperm.
  destruct (IH (removeOne st c)) as (Heq & Hsl & Hp & Hf).
  { rewrite Hstep. rewrite Hperm in Hsub.
    by apply (submseteq_app_inv_l _ _ [component_name c]). }
  rewrite Hstep in Heq, Hsl, Hp, Hf.
  split; [done|]. split.
  { etrans; [exact Hsl|]. apply without_first_sublist. }
  split.
  { rewrite Hperm. simpl. by rewrite Hp. }
  rewrite <-(without_first_other (component_name c)
               (fun s => src_name s ∉ component_name c :: (component_name <$> cs))
               (manifest_src (fst st))).
  2: { intros x Hx Hn. apply Hx. rewrite Hn. left. }
  rewrite !(filter_not_elem_of_cons src_name). by rewrite Hf.
Qed.

Lemma src_after_unfold (project : Project) (changeset : Changeset) :
  src_after project changeset
  = manifest_src
      (fst (foldl removeOne
              (foldl (addOne (paths_dir project)) (project_manifest project, [])
                     (added (components changeset)))
              (removed (components changeset)))).
Proof. reflexivity. Qed.

(** A removed component that [manifest.src] does not name costs the
    manifest its last entry. *)
Lemma updateManifest_absent_name (project : Project) (c : Component) :
  component_name c ∉ src_name <$> manifest_src (project_manifest project) →
  src_after project
    {| components := {| added := []; changed := []; removed := [c] |} |}
  = removelast (manifest_src (project_manifest project)).
Proof.
  intros Hc. rewrite src_after_unfold. cbn [foldl added removed components].
  rewrite removeOne_src. cbn [fst]. by rewrite bool_decide_eq_false_2.
Qed.

(** C10. For some input, a changeset whose [removed] list names a
    component that [manifest.src] does not hold, [updateManifest] looks the
    name up with [findIndex], gets -1, and deletes the last entry of
    [manifest.src], an entry of another name. For one removed component:
    when its name occurs in [manifest.src] the first entry of that name is
    deleted and every other entry is kept, and when it does not, the last
    entry is deleted. For a whole changeset: when every removed component
    has its entry in [manifest.src] as it is after the additions (the
    removed names, counted with their multiplicity, are among the names of
    [manifest.src]), the update deletes one entry per removed component, of
    that component's name, and keeps every other entry in its place. *)
Theorem updateManifest_removed_splice :
  (∃ (project : Project) (changeset : Changeset) (c : Component) (unrelated : Source),
      c ∈ removed (components changeset)
      ∧ (component_name c ∉ src_name <$> manifest_src (project_manifest project))
      ∧ findIndex (named (component_name c)) (manifest_src (project_manifest project)) = -1
      ∧ src_after project changeset
        = removelast (manifest_src (project_manifest project))
      ∧ last (manifest_src (project_manifest project)) = Some unrelated
      ∧ src_name unrelated ≠ component_name c
      ∧ unrelated ∉ src_after project changeset)
  ∧ (∀ (project : Project) (c : Component),
      let src0 := manifest_src (project_manifest project) in
      let only := {| components := {| added := []; changed := []; removed := [c] |} |} in
      (component_name c ∈ src_name <$> src0 →
       src_after project only = without_first (component_name c) src0)
      ∧ (component_name c ∉ src_name <$> src0 →
         src_after project only = removelast src0))
  ∧ (∀ (project : Project) (changeset : Changeset),
      let src0 := manifest_src (project_manifest project)
                  ++ (newSource (paths_dir project) <$> added (components changeset)) in
      let gone := component_name <$> removed (components changeset) in
      gone ⊆+ src_name <$> src0 →
      src_after project changeset `sublist_of` src0
      ∧ ((src_name <$> src0) ≡ₚ gone ++ (src_name <$> src_after project changeset))
      ∧ filter (fun s => src_name s ∉ gone) (src_after project changeset)
        = filter (fun s => src_name s ∉ gone) src0).
Proof.
  split; [|split].
  - exists twoModules, (removeOnly ["Gone"]),
      {| component_name := "Gone"; component_filename := "Gone.bas" |},
      {| src_name := "Module2"; src_path := "/book/src/Module2.bas" |}.
    assert ("Gone" ∉ src_name <$> manifest_src (project_manifest twoModules)) as Habsent.
    { simpl. intros Hin. repeat (apply elem_of_cons in Hin as [Hin|Hin]; [discriminate|]).
      by apply elem_of_nil in Hin. }
    split; [left|]. split; [exact Habsent|]. split; [reflexivity|].
    split; [by apply updateManifest_absent_name|].
    split; [reflexivity|]. split; [discriminate|].
    assert (src_after twoModules (removeOnly ["Gone"])
            = [ {| src_name := "Module1"; src_path := "/book/src/Module1.bas" |} ]) as ->
      by (vm_compute; reflexivity).
    intros Hin. repeat (apply elem_of_cons in Hin as [Hin|Hin]; [discriminate|]).
    by apply elem_of_nil in Hin.
  - intros project c src0 only. split; intros Hc.
    + unfold only. rewrite src_after_unfold. cbn [foldl added removed components].
      rewrite removeOne_src. cbn [fst]. by rewrite bool_decide_eq_true_2.
    + by apply updateManifest_absent_name.
  - intros project changeset src0 gone Hsub.
    rewrite src_after_unfold.
    pose proof (addOne_fold_src (paths_dir project) (added (components changeset))
                  (project_manifest project, [])) as Hadd.
    simpl in Hadd. fold (newSource (paths_dir project)) in Hadd.
    destruct (removeOne_fold (removed (components changeset))
                (foldl (addOne (paths_dir project)) (project_manifest project, [])
                       (added (components changeset)))) as (_ & Hsl & Hp & Hf).
    { by rewrite Hadd. }
    rewrite Hadd in Hsl, Hp, Hf. done.
Qed.

(** With pairwise distinct removed names the precondition is plain
    membership. *)
Lemma distinct_removed_names (gone : list string) (src : list Source) :
  NoDup gone → (∀ n, n ∈ gone → n ∈ src_name <$> src) → gone ⊆+ src_name <$> src.
Proof. apply NoDup_submseteq. Qed.

(** Two removals of one name, with one entry of that name: the second
    lookup fails and takes the last entry. *)
Lemma updateManifest_repeated_name :
  src_after twoModules (removeOnly ["Module1"; "Module1"]) = [].
Proof. vm_compute. reflexivity. Qed.

End ApplyChangesetFacts.

Lemma updateManifest_removed_splice_witness :
  let project := twoModules in
  let changeset := removeOnly ["Module1"] in
  ["Module1"] ⊆+ ["Module1"; "Module2"]
  ∧ @src_after simplePaths noPatch project changeset
    = [ {| src_name := "Module2"; src_path := "/book/src/Module2.bas" |} ]
  ∧ filter (fun s => src_name s ∉ ["Module1"]) (@src_after simplePaths noPatch project changeset)
    = filter (fun s => src_name s ∉ ["Module1"]) (manifest_src (project_manifest project) ++ []).
Proof.
  intros project changeset.
  assert (["Module1"] ⊆+ ["Module1"; "Module2"]) as Hsub.
  { apply submseteq_skip, submseteq_nil_l. }
  split; [exact Hsub|]. split.
  - vm_compute. reflexivity.
  - destruct (@updateManifest_removed_splice simplePaths noPatch) as (_ & _ & H).
    destruct (H project changeset Hsub) as (_ & _ & Hf). exact Hf.
Defined.

(* ------------------------------------------------------------------ *)
(** ** [exportProject] and its staging directory *)
(* ------------------------------------------------------------------ *)
Section ExportFacts.
Import ExportProject.
Context {paths : PathOps} {World Dependencies : Type}
        {fs : FileSystem World} {dirs : DirOps World}
        {collab : Collaborators World Dependencies}.

Ltac run_eff :=
  unfold ebind, io, log, assign_staging, read_staging, throw, eret; simpl.

(** The [try] block assigns [staging] first, and nothing in it assigns it
    again. *)
Lemma staged_assigns options project target0 deps (st st1 : State World) r :
  staged options project target0 deps st = (r, st1) →
  staging st1 = Some (stagingDir options project).
Proof.
  unfold staged, stagingDir. run_eff.
  destruct (negb (truthy_opt (completed options))); simpl.
  - destruct (ensureDir _ _) as [[[]|e] wa]; simpl; [|by intros [= _ <-]].
    destruct (emptyDir _ _) as [[[]|e] wb]; simpl; [|by intros [= _ <-]].
    destruct (exportTo _ _ _ _ _) as [[[]|e] wc]; simpl; [|by intros [= _ <-]].
    destruct (exportTarget _ _ _ _ _) as [rx wd]. by intros [= _ <-].
  - destruct (exportTarget _ _ _ _ _) as [rx wd]. by intros [= _ <-].
Qed.

(** With [completed] set, the [try] block is the assignment, one log line
    and [exportTarget]. *)
Lemma staged_completed options project target0 deps (st : State World) c :
  completed options = Some c → truthy c = true →
  staged options project target0 deps st
  = (fst (exportTarget target0 project deps c (world st)),
     {| world := snd (exportTarget target0 project deps c (world st));
        staging := Some c;
        logged := logged st ++ [(ExportToProject, LF +:+ "[3/3] Updating project")] |}).
Proof.
  intros Hc Ht. unfold staged. rewrite Hc. simpl. rewrite Ht. run_eff.
  by destruct (exportTarget _ _ _ _ _).
Qed.

Lemma cleanup_removes (st : State World) s :
  staging st = Some s → truthy s = true →
  cleanup st
  = (fst (remove s (world st)),
     {| world := snd (remove s (world st)); staging := Some s; logged := logged st |}).
Proof.
  intros Hs Ht. unfold cleanup. run_eff. rewrite Hs. simpl. rewrite Ht.
  destruct (remove _ _). simpl. by rewrite Hs.
Qed.

(** The exits of [exportProject]: before [staging] is assigned, or through
    the [try] block and the [finally] block. *)
Lemma exportProject_exits options w r st' :
  exportProject options (initial w) = (r, st') →
  (staging st' = None ∧ ∃ e, r = Err e)
  ∨ (∃ project target0 deps w2 r1 st1 rc,
       reaches_staging options w project target0 deps w2
       ∧ staged options project target0 deps
           {| world := w2; staging := None;
              logged := [(ExportProjectLoading, "[1/3] Loading project...")] |}
         = (r1, st1)
       ∧ cleanup st1 = (rc, st')
       ∧ r = match rc with Ok _ => r1 | Err e => Err e end).
Proof.
  unfold exportProject, initial. run_eff.
  destruct (loadProject w) as [[project|e] w1] eqn:Hload; simpl;
    [|intros [= <- <-]; left; eauto].
  destruct (negb (truthy_opt (target options)) && _) eqn:Hno; simpl;
    [intros [= <- <-]; left; eauto|].
  destruct (chooseTarget options project) as [target0|] eqn:Hchoose; simpl;
    [|intros [= <- <-]; left; eauto].
  destruct (fetchDependencies project w1) as [[deps|e] w2] eqn:Hfetch; simpl;
    [|intros [= <- <-]; left; eauto].
  unfold try_finally.
  destruct (staged options project target0 deps _) as [r1 st1] eqn:Hstaged.
  destruct (cleanup st1) as [rc st2] eqn:Hclean.
  intros Hrun. right. exists project, target0, deps, w2, r1, st1, rc.
  split.
  { exists w1. repeat split; try done.
    apply andb_false_iff in Hno as [Hno|Hno].
    - left. by apply negb_false_iff.
    - right. apply negb_false_iff, bool_decide_eq_true in Hno. done. }
  split; [done|]. split.
  - destruct rc; by simplify_eq.
  - destruct rc; by simplify_eq.
Qed.

Lemma stagingDir_truthy options project :
  (∀ a b, truthy (join a b) = true) → truthy (stagingDir options project) = true.
Proof.
  intros Hjoin. unfold stagingDir.
  destruct (completed options) as [c|]; simpl; [|apply Hjoin].
  destruct (truthy c) eqn:Hc; simpl; [done | apply Hjoin].
Qed.

(** C8. Whenever an invocation of [exportProject] has assigned a staging
    directory, [remove] of that directory is the last thing done to the
    file system before the action returns, whether the stages of the [try]
    block completed or one of them threw; with a [remove] that succeeds and
    deletes, the directory does not exist when the action returns. ([join]
    is taken to return a non-empty path, as Node's does.) *)
Theorem exportProject_removes_staging (options : ExportOptions) (w : World)
    (r : result unit) (st' : State World) (s : string) :
  (∀ a b, truthy (join a b) = true) →
  exportProject options (initial w) = (r, st') →
  staging st' = Some s →
  (∃ w0, world st' = snd (remove s w0))
  ∧ (remove_deletes → pathExists (world st') s = false).
Proof.
  intros Hjoin Hrun Hs.
  destruct (exportProject_exits _ _ _ _ Hrun)
    as [[Hnone _] | (project & target0 & deps & w2 & r1 & st1 & rc & _ & Hst & Hcl & _)].
  { congruence. }
  pose proof (staged_assigns _ _ _ _ _ _ _ Hst) as Hassigned.
  rewrite (cleanup_removes st1 _ Hassigned (stagingDir_truthy _ _ Hjoin)) in Hcl.
  injection Hcl as _ <-. simpl in *. injection Hs as <-.
  split; [eauto|]. intros Hrm.
  destruct (Hrm (stagingDir options project) (world st1)) as (w' & -> & Hgone).
  exact Hgone.
Qed.

Lemma unchanged_at_trans (p : string) (w1 w2 w3 : World) :
  unchanged_at p w1 w2 → unchanged_at p w2 w3 → unchanged_at p w1 w3.
Proof. intros [H1 H2] [H3 H4]. split; congruence. Qed.

(** With [completed] set, a run that got to the staging part is the
    assignment of [staging], [exportTarget] on that directory and
    [remove] of it. *)
Lemma exportProject_completed_run options c w project target0 deps w2 :
  completed options = Some c → truthy c = true →
  reaches_staging options w project target0 deps w2 →
  exportProject options (initial w)
  = (match fst (remove c (snd (exportTarget target0 project deps c w2))) with
     | Ok _ => fst (exportTarget target0 project deps c w2)
     | Err e => Err e
     end,
     {| world := snd (remove c (snd (exportTarget target0 project deps c w2)));
        staging := Some c;
        logged := [(ExportProjectLoading, "[1/3] Loading project...");
                   (ExportToProject, LF +:+ "[3/3] Updating project")] |}).
Proof.
  intros Hc Ht (w1 & Hload & Htarget & Hchoose & Hfetch).
  unfold exportProject, initial. run_eff. rewrite Hload. simpl.
  assert (negb (truthy_opt (target options))
          && negb (bool_decide (is_Some (manifest_target (project_manifest project))))
          = false) as ->.
  { destruct Htarget as [-> | Hsome]; [done|].
    rewrite (bool_decide_eq_true_2 _ Hsome). apply andb_false_r. }
  rewrite Hchoose. simpl. rewrite Hfetch. simpl. unfold try_finally.
  rewrite (staged_completed _ _ _ _ _ c Hc Ht).
  rewrite (cleanup_removes _ c) by done. simpl.
  by destruct (remove c _) as [[[]|e] w4].
Qed.

Lemma target_check_passes options project :
  truthy_opt (target options) = true
  ∨ is_Some (manifest_target (project_manifest project)) →
  negb (truthy_opt (target options))
  && negb (bool_decide (is_Some (manifest_target (project_manifest project)))) = false.
Proof.
  intros [-> | Hsome]; [done|].
  rewrite (bool_decide_eq_true_2 _ Hsome). apply andb_false_r.
Qed.

(** A run that ends before the [try] block returns its error with the
    file system as it was at that point; [staging] is not assigned. *)
Lemma exportProject_early_run options w e w' :
  throws_early options w e w' →
  exportProject options (initial w)
  = (Err e, {| world := w'; staging := None;
               logged := [(ExportProjectLoading, "[1/3] Loading project...")] |}).
Proof.
  unfold exportProject, initial. run_eff.
  intros [Hload | (project & w1 & Hload &
                   [(Ht & Hm & -> & ->) |
                    (Htarget & [(Hc & -> & ->) | (target0 & Hc & Hf)])])];
    rewrite Hload; simpl; [done| | |].
  - by rewrite Ht, Hm.
  - rewrite (target_check_passes _ _ Htarget), Hc. done.
  - rewrite (target_check_passes _ _ Htarget), Hc. simpl. by rewrite Hf.
Qed.

(** Every run either ends before the [try] block or gets to it. *)
Lemma exportProject_early_or_staged options w :
  (∃ e w', throws_early options w e w')
  ∨ (∃ project target0 deps w2, reaches_staging options w project target0 deps w2).
Proof.
  unfold throws_early, reaches_staging.
  destruct (loadProject w) as [[project|e] w1] eqn:Hload; [|left; eauto].
  destruct (truthy_opt (target options)) eqn:Ht.
  - destruct (chooseTarget options project) as [target0|] eqn:Hc.
    + destruct (fetchDependencies project w1) as [[deps|e] w2] eqn:Hf.
      * right. exists project, target0, deps, w2, w1. eauto.
      * left. exists e, w2. right. exists project, w1. split; [done|]. right. eauto 10.
    + left. eexists _, w1. right. exists project, w1. split; [done|]. right. eauto 10.
  - destruct (manifest_target (project_manifest project)) as [t|] eqn:Hm.
    + assert (is_Some (manifest_target (project_manifest project))) as Hsome
        by (rewrite Hm; eauto).
      destruct (chooseTarget options project) as [target0|] eqn:Hc.
      * destruct (fetchDependencies project w1) as [[deps|e] w2] eqn:Hf.
        -- right. exists project, target0, deps, w2, w1. eauto.
        -- left. exists e, w2. right. exists project, w1. split; [done|]. right. eauto 10.
      * left. eexists _, w1. right. exists project, w1. split; [done|]. right. eauto 10.
    + left. eexists _, w1. right. exists project, w1. split; [done|]. left. eauto.
Qed.

Lemma throws_early_leaves options w e w' (p : string) :
  throws_early options w e w' →
  leaves_alone p loadProject →
  (∀ project, leaves_alone p (fetchDependencies project)) →
  unchanged_at p w w'.
Proof.
  intros [Hload | (project & w1 & Hload &
                   [(_ & _ & _ & ->) |
                    (_ & [(_ & _ & ->) | (target0 & _ & Hf)])])] Hl Hfetch.
  - exact (Hl _ _ _ Hload).
  - exact (Hl _ _ _ Hload).
  - exact (Hl _ _ _ Hload).
  - eapply unchanged_at_trans; [exact (Hl _ _ _ Hload) | exact (Hfetch _ _ _ _ Hf)].
Qed.

(** C9, as amended. With the [completed] option set to a directory [c],
    every run of [exportProject] either ends before the [try] block or
    gets to it. A run that gets to it (the project is loaded, a target is
    chosen, the dependencies are fetched) uses [c] itself as the staging
    directory: it assigns [c] to [staging], hands [c] to [exportTarget]
    and then removes [c], on success and on error of [exportTarget] alike;
    nothing is created, emptied or exported by the action itself, and with
    a [remove] that succeeds and deletes, [c] no longer exists when the
    action returns. A run that ends before the [try] block (the project
    fails to load, no target, no matching target, fetching fails) returns
    that error without any cleanup: the file system is as [loadProject]
    and [fetchDependencies] left it, so that a path these two leave alone,
    [c] for one, is in place. On every exit, a path outside [c] that
    [loadProject], [fetchDependencies] and [exportTarget] leave alone is as
    it was before, [remove] touching only its directory. *)
Theorem exportProject_completed_is_removed (options : ExportOptions) (c : string)
    (w : World) (r : result unit) (st' : State World) :
  completed options = Some c → truthy c = true →
  exportProject options (initial w) = (r, st') →
  ((∃ e w', throws_early options w e w')
   ∨ (∃ project target0 deps w2, reaches_staging options w project target0 deps w2))
  ∧ (∀ project target0 deps w2,
       reaches_staging options w project target0 deps w2 →
       let folded := exportTarget target0 project deps c w2 in
       staging st' = Some c
       ∧ world st' = snd (remove c (snd folded))
       ∧ r = match fst (remove c (snd folded)) with
             | Ok _ => fst folded
             | Err e => Err e
             end
       ∧ logged st' = [(ExportProjectLoading, "[1/3] Loading project...");
                       (ExportToProject, LF +:+ "[3/3] Updating project")]
       ∧ (remove_deletes →
          r = fst folded
          ∧ remove c (snd folded) = (Ok tt, world st')
          ∧ pathExists (world st') c = false))
  ∧ (∀ e w',
       throws_early options w e w' →
       r = Err e ∧ staging st' = None ∧ world st' = w'
       ∧ logged st' = [(ExportProjectLoading, "[1/3] Loading project...")]
       ∧ (∀ p, leaves_alone p loadProject →
               (∀ project, leaves_alone p (fetchDependencies project)) →
               unchanged_at p w (world st')))
  ∧ (remove_confined →
     ∀ p, within c p = false →
          leaves_alone p loadProject →
          (∀ project, leaves_alone p (fetchDependencies project)) →
          (∀ target0 project deps, leaves_alone p (exportTarget target0 project deps c)) →
          unchanged_at p w (world st')).
Proof.
  intros Hc Ht Hrun.
  assert (∀ project target0 deps w2,
            reaches_staging options w project target0 deps w2 →
            r = match fst (remove c (snd (exportTarget target0 project deps c w2))) with
                | Ok _ => fst (exportTarget target0 project deps c w2)
                | Err e => Err e
                end
            ∧ st' = {| world := snd (remove c (snd (exportTarget target0 project deps c w2)));
                       staging := Some c;
                       logged := [(ExportProjectLoading, "[1/3] Loading project...");
                                  (ExportToProject, LF +:+ "[3/3] Updating project")] |})
    as Hstaged.
  { intros project target0 deps w2 Hreach.
    rewrite (exportProject_completed_run _ c _ _ _ _ _ Hc Ht Hreach) in Hrun.
    by injection Hrun as <- <-. }
  assert (∀ e w', throws_early options w e w' →
            r = Err e
            ∧ st' = {| world := w'; staging := None;
                       logged := [(ExportProjectLoading, "[1/3] Loading project...")] |})
    as Hearly.
  { intros e w' He. rewrite (exportProject_early_run _ _ _ _ He) in Hrun.
    by injection Hrun as <- <-. }
  split; [apply exportProject_early_or_staged|]. split; [|split].
  - intros project target0 deps w2 Hreach folded.
    destruct (Hstaged _ _ _ _ Hreach) as [-> ->]. simpl.
    do 4 (split; [done|]). intros Hrm.
    destruct (Hrm c (snd folded)) as (w4 & Hremove & Hgone).
    fold folded. rewrite Hremove. simpl. done.
  - intros e w' He. destruct (Hearly _ _ He) as [-> ->]. simpl.
    do 4 (split; [done|]).
    intros p Hl Hf. exact (throws_early_leaves _ _ _ _ p He Hl Hf).
  - intros Hrc p Hout Hl Hf Hx.
    destruct (exportProject_early_or_staged options w)
      as [(e & w' & He) | (project & target0 & deps & w2 & Hreach)].
    + destruct (Hearly _ _ He) as [_ ->]. simpl.
      exact (throws_early_leaves _ _ _ _ p He Hl Hf).
    + destruct (Hstaged _ _ _ _ Hreach) as [_ ->]. simpl.
      destruct Hreach as (w1 & Hload & _ & _ & Hfetch).
      destruct (exportTarget target0 project deps c w2) as [rx w3] eqn:Ex. simpl.
      destruct (remove c w3) as [rr w4] eqn:Er. simpl.
      eapply unchanged_at_trans; [exact (Hl _ _ _ Hload)|].
      eapply unchanged_at_trans; [exact (Hf _ _ _ _ Hfetch)|].
      eapply unchanged_at_trans; [exact (Hx _ _ _ _ _ _ Ex)|].
      exact (Hrc c _ _ _ p Er Hout).
Qed.

End ExportFacts.

(** *** The list file system meets the assumptions *)

Lemma within_refl (dir : string) : within dir dir = true.
Proof. unfold within. by rewrite String.eqb_refl. Qed.

Lemma listDirs_remove_deletes :
  remove_deletes (fs:=listFiles) (dirs:=listDirs).
Proof.
  intros p w. eexists. split; [reflexivity|].
  simpl. apply bool_decide_eq_false. rewrite list_elem_of_filter.
  intros [Hp _]. by rewrite within_refl in Hp.
Qed.

Lemma listDirs_remove_confined :
  remove_confined (fs:=listFiles) (dirs:=listDirs).
Proof.
  intros dir w r w' p [= _ <-] Hout. split; [|reflexivity].
  simpl. apply bool_decide_ext. rewrite list_elem_of_filter, Hout. simpl. tauto.
Qed.

Lemma bookCollaborators_leave (p : string) :
  p ≠ "/book/src/Module1.bas" →
  leaves_alone (fs:=listFiles) p (ExportProject.loadProject (Collaborators:=bookCollaborators))
  ∧ (∀ project,
       leaves_alone (fs:=listFiles) p
         (ExportProject.fetchDependencies (Collaborators:=bookCollaborators) project))
  ∧ (∀ target0 project deps dir,
       leaves_alone (fs:=listFiles) p
         (ExportProject.exportTarget (Collaborators:=bookCollaborators)
            target0 project deps dir)).
Proof.
  intros Hp. split; [|split].
  - intros w r w' [= _ <-]. by split.
  - intros project w r w' [= _ <-]. by split.
  - intros target0 project deps dir w r w' Hrun. simpl in Hrun.
    case_bool_decide; injection Hrun as _ <-; [|by split].
    split; [|reflexivity]. simpl. apply bool_decide_ext.
    rewrite elem_of_cons. split; [|tauto]. by intros [-> | ?].
Qed.

Lemma simple_join_truthy (a b : string) : truthy (simple_join a b) = true.
Proof. unfold simple_join. by destruct a. Qed.

Lemma exportProject_removes_staging_witness :
  let run := ExportProject.exportProject (paths:=simplePaths) (dirs:=listDirs)
               (collab:=bookCollaborators) (exportXlsm None) (initial ["/book"]) in
  ExportProject.staging (snd run) = Some "/cache/staging/export"
  ∧ fst run = Ok tt
  ∧ pathExists (FileSystem:=listFiles) (ExportProject.world (snd run))
      "/cache/staging/export" = false.
Proof.
  intros run. split; [reflexivity|]. split; [reflexivity|].
  apply (exportProject_removes_staging (paths:=simplePaths) (fs:=listFiles)
           (dirs:=listDirs) (collab:=bookCollaborators)
           (exportXlsm None) ["/book"] (fst run) (snd run) "/cache/staging/export"
           simple_join_truthy eq_refl eq_refl).
  exact listDirs_remove_deletes.
Defined.

(** The error exit of the same action: the bridge fails after the staging
    directory was created, and the directory is gone when the action
    throws. *)
Lemma exportProject_bridge_error_exit :
  let run := ExportProject.exportProject (paths:=simplePaths) (dirs:=listDirs)
               (collab:=failingBridge) (exportXlsm None) (initial ["/book"]) in
  fst run = Err (EnvError "target-export-failed")
  ∧ ExportProject.staging (snd run) = Some "/cache/staging/export"
  ∧ ExportProject.world (snd run) = ["/book"].
Proof. repeat split. Qed.

Lemma exportProject_completed_is_removed_witness :
  let w := ["/book"; "/home/me/done"; "/home/me/done/Module1.bas"; "/home/me/notes.txt"] in
  let run := ExportProject.exportProject (paths:=simplePaths) (dirs:=listDirs)
               (collab:=bookCollaborators) (exportXlsm (Some "/home/me/done")) (initial w) in
  fst run = Ok tt
  ∧ pathExists (FileSystem:=listFiles) (ExportProject.world (snd run)) "/home/me/done" = false
  ∧ unchanged_at (fs:=listFiles) "/home/me/notes.txt" w (ExportProject.world (snd run)).
Proof.
  intros w run.
  destruct (exportProject_completed_is_removed (paths:=simplePaths) (fs:=listFiles)
              (dirs:=listDirs) (collab:=bookCollaborators)
              (exportXlsm (Some "/home/me/done")) "/home/me/done"
              w (fst run) (snd run) eq_refl eq_refl eq_refl)
    as (_ & Hstaged & _ & Hframe).
  split; [reflexivity|]. split.
  - destruct (Hstaged twoModules
                {| target_type := "xlsm"; target_name := "book";
                   target_path := "targets/xlsm"; target_filename := "book.xlsm";
                   target_blank := true |} tt w) as (_ & _ & _ & _ & Hdeleted).
    + exists w. split; [reflexivity|]. split; [by left|]. split; reflexivity.
    + destruct (Hdeleted listDirs_remove_deletes) as (_ & _ & Hgone). exact Hgone.
  - destruct (bookCollaborators_leave "/home/me/notes.txt") as (Hl & Hf & Hx);
      [discriminate|].
    apply (Hframe listDirs_remove_confined); [reflexivity | exact Hl | exact Hf |].
    intros target0 project deps. apply Hx.
Defined.

(** The same on the error exit: the caller's directory holds no module,
    folding back fails, and the directory is removed all the same. *)
Lemma exportProject_completed_error_exit :
  let w := ["/book"; "/home/me/done"; "/home/me/notes.txt"] in
  let run := ExportProject.exportProject (paths:=simplePaths) (dirs:=listDirs)
               (collab:=bookCollaborators) (exportXlsm (Some "/home/me/done")) (initial w) in
  fst run = Err (EnvError "nothing to fold back")
  ∧ ExportProject.world (snd run) = ["/book"; "/home/me/notes.txt"].
Proof. split; reflexivity. Qed.

(** With [completed] set and a project whose dependencies are fetched into
    the cache, a path outside the project and outside the caller's
    directory has come to exist when the action returns. *)
Lemma exportProject_completed_fetch_writes_cache :
  let w := ["/book"; "/home/me/done"] in
  let run := ExportProject.exportProject (paths:=simplePaths) (dirs:=listDirs)
               (collab:=xlsmCollaborators) (exportXlsm (Some "/home/me/done")) (initial w) in
  fst run = Ok tt
  ∧ within "/book" "/cache/sources" = false
  ∧ within "/home/me/done" "/cache/sources" = false
  ∧ pathExists (FileSystem:=listFiles) w "/cache/sources" = false
  ∧ pathExists (FileSystem:=listFiles) (ExportProject.world (snd run)) "/cache/sources" = true.
Proof. repeat split. Qed.

(** C9, counterexample. With [completed] set, on a project without a
    default target and without a [target] option, the action throws
    [export-no-target] before the [try] block: the caller's directory is
    not removed. *)
Lemma exportProject_completed_early_error_counterexample :
  let w := ["/book"; "/home/me/done"; "/home/me/done/Module1.bas"] in
  let options := {| ExportProject.target := None;
                    ExportProject.completed := Some "/home/me/done";
                    ExportProject.addin := None |} in
  let run := ExportProject.exportProject (paths:=simplePaths) (dirs:=listDirs)
               (collab:=bookCollaborators) options (initial w) in
  fst run = Err (CliError "export-no-target"
                   ("No default target found for project," +:+ LF +:+
                    "use --target TYPE to export from a specific target."))
  ∧ ExportProject.world (snd run) = w
  ∧ pathExists (FileSystem:=listFiles) (ExportProject.world (snd run)) "/home/me/done" = true.
Proof. repeat split. Qed.

(* ------------------------------------------------------------------ *)
(** ** The validity check of the lockfile *)
(* ------------------------------------------------------------------ *)
Section ValidityFacts.
Context {env : LockfileEnv}.

Lemma indexBy_snoc {A} (key : A → string) (items : list A) (item : A) :
  indexBy key (items ++ [item]) = <[key item := item]> (indexBy key items).
Proof. unfold indexBy. by rewrite foldl_app. Qed.

(** The index built by [forEach] holds, for a name, the last item of that
    name. *)
Lemma indexBy_lookup {A} (key : A → string) (items : list A) (n : string) :
  indexBy key items !! n = lastNamed key items n.
Proof.
  unfold lastNamed. induction items as [|item items IH] using rev_ind.
  - reflexivity.
  - rewrite indexBy_snoc, filter_app, filter_cons, filter_nil.
    destruct (decide (key item = n)) as [<-|Hne].
    + by rewrite lookup_insert_eq, last_snoc.
    + rewrite lookup_insert_ne by done. by rewrite app_nil_r.
Qed.

Lemma every_true {A} (test : A → result bool) (l : list A) :
  every test l = Ok true ↔ ∀ x, x ∈ l → test x = Ok true.
Proof.
  induction l as [|x l IH]; simpl.
  - split; [intros _ x Hx; by apply elem_of_nil in Hx | done].
  - destruct (test x) as [[]|e] eqn:Hx; simpl.
    + rewrite IH. split.
      * intros H y [->|Hy]%elem_of_cons; auto.
      * intros H y Hy. apply H. by right.
    + split; [done|]. intros H. specialize (H x (list_elem_of_here _ _)). congruence.
    + split; [done|]. intros H. specialize (H x (list_elem_of_here _ _)). congruence.
Qed.

Lemma satisfiesDependency_true (value comparison : Dependency) :
  satisfiesDependency value comparison = Ok true ↔ satisfiedBy value comparison.
Proof.
  destruct comparison as [c|c|c], value as [v|v|v]; simpl;
    try (split; [discriminate | done]).
  - split; [by intros [= ->] | by intros ->].
  - destruct (String.eqb_spec (path_path v) (path_path c)) as [Hp|Hp]; simpl.
    + destruct (loadManifest (path_path v)) as [manifest|e]; simpl.
      * split.
        -- intros [= Hv%bool_decide_eq_true]. eauto.
        -- intros (_ & m & [= <-] & Hv). by rewrite bool_decide_eq_true_2.
      * split; [discriminate|]. by intros (_ & m & ? & _).
    + split; [discriminate|]. by intros [? _].
  - unfold sameRef.
    destruct (git_rev v), (git_rev c), (git_tag v), (git_tag c),
      (git_branch v), (git_branch c);
      try (split; [discriminate | done]);
      (split; [by intros [= ->%String.eqb_eq] | intros ->; by rewrite String.eqb_refl]).
Qed.

Lemma compareDependencies_true (current locked : Snapshot) :
  compareDependencies current locked = Ok true
  ↔ dependenciesMatch (snap_dependencies current) (snap_dependencies locked).
Proof.
  unfold compareDependencies, dependenciesMatch.
  destruct (Nat.eqb_spec (length (snap_dependencies current))
              (length (snap_dependencies locked))) as [Hlen|Hlen]; simpl.
  2: { split; [discriminate | by intros [? _]]. }
  rewrite every_true. split.
  - intros H. split; [done|]. intros d Hd. specialize (H d Hd).
    rewrite indexBy_lookup in H.
    destruct (lastNamed dep_name _ _) as [c|]; [|discriminate].
    exists c. split; [done|]. by apply satisfiesDependency_true.
  - intros [_ H] d Hd. destruct (H d Hd) as (c & Hc & Hs).
    rewrite indexBy_lookup, Hc. by apply satisfiesDependency_true.
Qed.

Lemma compareManifests_true (current locked : Snapshot) :
  compareManifests current locked = Ok true ↔ snapshotMatches current locked.
Proof.
  unfold compareManifests, snapshotMatches.
  destruct (String.eqb_spec (snap_name current) (snap_name locked)); simpl.
  2: { split; [discriminate | by intros [? _]]. }
  destruct (String.eqb_spec (snap_version current) (snap_version locked)); simpl.
  2: { split; [discriminate | by intros (_ & ? & _)]. }
  rewrite compareDependencies_true. tauto.
Qed.

(** The version test of [isLockfileValid]. *)
Lemma isLockfileValid_version (lockfile : Lockfile) (workspace0 : Workspace) :
  isLockfileValid lockfile workspace0 = Ok true → versionIsCurrent lockfile.
Proof.
  unfold isLockfileValid, versionIsCurrent.
  destruct (metadata lockfile) as [m|]; [|discriminate].
  destruct (String.eqb_spec (meta_version m) LOCKFILE_VERSION); [eauto | discriminate].
Qed.

(** C1, as amended. [isLockfileValid(L, W)] returns [true] if and only if
    (a) the metadata version of [L] is the current [LOCKFILE_VERSION],
    (b) the root of [L] matches the root of [W] by name, version and
    dependency set, (c) [L] and [W] have the same number of members and
    every member of [L] matches the member of [W] of its name; dependency
    sets match when the counts are equal and each locked dependency is
    satisfied by the current dependency of its name: a registry dependency
    when its version satisfies the current range, a path dependency when
    the paths are equal and the manifest at the path has the locked
    version, a git dependency when the first of rev, tag, branch that both
    carry is equal in both. *)
Theorem isLockfileValid_true_iff (lockfile : Lockfile) (workspace0 : Workspace) :
  isLockfileValid lockfile workspace0 = Ok true ↔ validLockfile lockfile workspace0.
Proof.
  unfold isLockfileValid, validLockfile, versionIsCurrent, membersMatch.
  destruct (metadata lockfile) as [m|].
  2: { split; [discriminate | by intros [(? & [=] & _) _]]. }
  destruct (String.eqb_spec (meta_version m) LOCKFILE_VERSION) as [Hv|Hv]; simpl.
  2: { split; [discriminate | intros [(? & [= <-] & ?) _]; done]. }
  pose proof (compareManifests_true (root workspace0) (root (workspace lockfile))) as Hroot.
  destruct (compareManifests (root workspace0) (root (workspace lockfile)))
    as [[]|e]; simpl.
  2: { split; [discriminate|]. intros (_ & Hr & _). apply Hroot in Hr. discriminate. }
  2: { split; [discriminate|]. intros (_ & Hr & _). apply Hroot in Hr. discriminate. }
  destruct (Nat.eqb_spec (length (members (workspace lockfile)))
              (length (members workspace0))) as [Hlen|Hlen]; simpl.
  2: { split; [discriminate | by intros (_ & _ & ? & _)]. }
  rewrite every_true. split.
  - intros H. split; [eauto|]. split; [by apply Hroot|]. split; [done|].
    intros member Hm. specialize (H member Hm). rewrite indexBy_lookup in H.
    destruct (lastNamed snap_name _ _) as [cm|]; [|discriminate].
    exists cm. split; [done|]. by apply compareManifests_true.
  - intros (_ & _ & _ & H) member Hm. destruct (H member Hm) as (cm & Hcm & Hs).
    rewrite indexBy_lookup, Hcm. by apply compareManifests_true.
Qed.

(** When each side carries exactly one of rev, tag and branch, agreeing on
    the ref is having a discriminator in common with equal values. *)
Lemma sameRef_one_discriminator (current locked : GitDependency) :
  oneRef current → oneRef locked →
  sameRef current locked ↔ someRefEqual current locked.
Proof.
  unfold oneRef, sameRef, someRefEqual.
  destruct (git_rev current), (git_tag current), (git_branch current);
    try done;
    destruct (git_rev locked), (git_tag locked), (git_branch locked);
    try done; intros _ _; split;
    try (intros ->; eauto 6);
    try (intros [(? & [=] & [=]) | [(? & [=] & [=]) | (? & [=] & [=])]]; congruence);
    try done.
Qed.

(** With a rev and a tag on both sides, an equal tag does not make up for
    different revs. *)
Lemma sameRef_rev_first :
  let current := {| git_name := "lib"; git_git := "https://host/lib.git";
                    git_rev := Some "abc"; git_tag := Some "v1"; git_branch := None |} in
  let locked := {| git_name := "lib"; git_git := "https://host/lib.git";
                   git_rev := Some "def"; git_tag := Some "v1"; git_branch := None |} in
  satisfiesDependency (Git current) (Git locked) = Ok false
  ∧ someRefEqual current locked.
Proof. split; [reflexivity|]. right. left. by exists "v1". Qed.

End ValidityFacts.

Lemma isLockfileValid_true_iff_witness :
  validLockfile (env:=exampleEnv)
    (lockedBook [fooLocked; libPath (Some "0.2.0")] [toolsSnapshot])
    {| root := bookSnapshot [libPath None; fooRange]; members := [toolsSnapshot] |}.
Proof. apply isLockfileValid_true_iff. reflexivity. Defined.

(** C1, counterexample. A lockfile with no member against a workspace with
    one member: (a), (b) and (c) hold as worded, every member of the
    lockfile (there is none) matching, and [isLockfileValid] returns
    [false] on the member counts. *)
Lemma isLockfileValid_member_count_counterexample :
  let lockfile := lockedBook [fooLocked] [] in
  let workspace0 := {| root := bookSnapshot [fooRange]; members := [toolsSnapshot] |} in
  validAsWorded (env:=exampleEnv) lockfile workspace0
  ∧ isLockfileValid (env:=exampleEnv) lockfile workspace0 = Ok false.
Proof.
  split; [|reflexivity].
  split; [by eexists|]. split.
  - split; [reflexivity|]. split; [reflexivity|]. split; [reflexivity|].
    intros d ->%list_elem_of_singleton. exists fooRange. split; reflexivity.
  - intros member Hm. by apply elem_of_nil in Hm.
Qed.

(* ------------------------------------------------------------------ *)
(** ** Reading and writing the lockfile *)
(* ------------------------------------------------------------------ *)
Section LockfileFiles.
Context {paths : PathOps} {regs : RegistrationOps} {codec : TomlCodec}
        {env : LockfileEnv} {World : Type} {fs : FileSystem World}.

(** [readLockfile] in terms of the one file it looks at. *)
Lemma readLockfile_outcome (w : World) (dir : string) :
  readLockfile w dir
  = Ok (if pathExists w (join dir "vba-block.lock")
        then match readFile w (join dir "vba-block.lock") with
             | Ok toml =>
                 match fromToml toml dir with
                 | Ok lockfile => Some lockfile
                 | Err _ => None
                 end
             | Err _ => None
             end
        else None).
Proof.
  unfold readLockfile, try_catch.
  destruct (pathExists w _); simpl; [|done].
  destruct (readFile w _) as [toml|e]; simpl; [|done].
  by destruct (fromToml toml dir).
Qed.

Lemma has_false_field (value : Toml) (key : string) :
  has value key = false → field value key = VUndefined.
Proof.
  destruct value as [| |items|fields]; simpl; try done.
  intros Hhas%bool_decide_eq_false.
  destruct (assoc key fields); [|done]. exfalso. apply Hhas. eauto.
Qed.

Lemma loadPackage_invalid (dir : string) (entry : Toml) :
  invalidPackage entry → ∃ e, loadPackage dir entry = Err e.
Proof.
  unfold loadPackage, ok.
  intros [H | [H | [H | H]]]; try apply has_false_field in H; rewrite H; simpl;
    rewrite ?andb_false_r; simpl; eauto.
Qed.

Lemma loadPackages_invalid (dir : string) (entries : list Toml) (entry : Toml)
    (byName : gmap string Dependency) :
  entry ∈ entries → invalidPackage entry →
  ∃ e, loadPackages dir entries byName = Err e.
Proof.
  intros Hin Hbad. revert byName.
  induction entries as [|x entries IH]; intros byName; [by apply elem_of_nil in Hin|].
  simpl. apply elem_of_cons in Hin as [<- | Hin].
  - destruct (loadPackage_invalid dir entry Hbad) as [e ->]. simpl. eauto.
  - destruct (loadPackage dir x) as [registration|e]; simpl; [|eauto].
    destruct (IH Hin (<[head_name registration.1 := toDependency registration.1]> byName))
      as [e ->].
    simpl. eauto.
Qed.

Lemma fromTomlValue_invalid_package (parsed : Toml) (dir : string)
    (entries : list Toml) (entry : Toml) :
  field parsed "packages" = VArray entries →
  entry ∈ entries → invalidPackage entry →
  ∃ e, fromTomlValue parsed dir = Err e.
Proof.
  intros Hp Hin Hbad. unfold fromTomlValue, ok.
  destruct (has parsed "root"); simpl; [|eauto].
  rewrite Hp. simpl.
  destruct (loadPackages_invalid dir entries entry ∅ Hin Hbad) as [e ->].
  simpl. eauto.
Qed.

(** C3. [readLockfile] never throws. It returns [null] when the file does
    not exist, when reading it fails, when its text fails to parse, when
    the parsed document has no [root] field, and when a package entry lacks
    its name, version or source or has no array of dependencies. *)
Theorem readLockfile_never_throws (w : World) (dir : string) :
  (∃ r, readLockfile w dir = Ok r)
  ∧ (pathExists w (join dir "vba-block.lock") = false → readLockfile w dir = Ok None)
  ∧ (∀ e, readFile w (join dir "vba-block.lock") = Err e → readLockfile w dir = Ok None)
  ∧ (∀ toml, readFile w (join dir "vba-block.lock") = Ok toml →
       (∀ e, parseToml toml = Err e → readLockfile w dir = Ok None)
       ∧ (∀ parsed, parseToml toml = Ok parsed →
            (has parsed "root" = false → readLockfile w dir = Ok None)
            ∧ (∀ entries entry,
                 field parsed "packages" = VArray entries →
                 entry ∈ entries → invalidPackage entry →
                 readLockfile w dir = Ok None))).
Proof.
  rewrite readLockfile_outcome. split; [eauto|]. split; [by intros ->|].
  split.
  { intros e ->. by destruct (pathExists w _). }
  intros toml ->. split.
  { intros e He. unfold fromToml. rewrite He. simpl. by destruct (pathExists w _). }
  intros parsed Hp. unfold fromToml. rewrite Hp. simpl. split.
  - intros Hroot. unfold fromTomlValue, ok. rewrite Hroot. simpl.
    by destruct (pathExists w _).
  - intros entries entry Hpk Hin Hbad.
    destruct (fromTomlValue_invalid_package parsed dir entries entry Hpk Hin Hbad)
      as [e ->].
    by destruct (pathExists w _).
Qed.

(** C6, as amended. [readLockfile] reads, and [writeLockfile] writes, the
    file [vba-block.lock] of the project directory: what [readLockfile]
    returns depends on the file system only through that path, and a
    successful [writeLockfile] is [writeFile] of the text of [toToml] at
    that path. The lockfile version is the string 1: [toToml] puts it in
    [metadata], and [isLockfileValid] accepts no other. *)
Theorem lockfile_is_vba_block_lock (dir : string) :
  (∀ w w' : World,
     pathExists w (join dir "vba-block.lock") = pathExists w' (join dir "vba-block.lock") →
     readFile w (join dir "vba-block.lock") = readFile w' (join dir "vba-block.lock") →
     readLockfile w dir = readLockfile w' dir)
  ∧ (∀ (w : World) toml lockfile,
       pathExists w (join dir "vba-block.lock") = true →
       readFile w (join dir "vba-block.lock") = Ok toml →
       fromToml toml dir = Ok lockfile →
       readLockfile w dir = Ok (Some lockfile))
  ∧ (∀ lockfile (w w' : World),
       writeLockfile dir lockfile w = Ok w' →
       ∃ text lockfile', toToml lockfile dir = Ok (text, lockfile')
                         ∧ writeFile (join dir "vba-block.lock") text w = Ok w')
  ∧ LOCKFILE_VERSION = "1"
  ∧ (∀ lockfile value,
       toTomlValue lockfile dir = Ok value →
       field (field value "metadata") "version" = VString "1")
  ∧ (∀ lockfile workspace0,
       isLockfileValid lockfile workspace0 = Ok true →
       ∃ m, metadata lockfile = Some m ∧ meta_version m = "1").
Proof.
  split.
  { intros w w' He Hr. rewrite !readLockfile_outcome. by rewrite He, Hr. }
  split.
  { intros w toml lockfile He Hr Hf. rewrite readLockfile_outcome. by rewrite He, Hr, Hf. }
  split.
  { intros lockfile w w'. unfold writeLockfile, try_catch.
    destruct (toToml lockfile dir) as [[text lockfile']|e]; simpl; [|discriminate].
    destruct (writeFile _ text w) as [w1|e] eqn:Hw; [|discriminate].
    intros [= <-]. eauto. }
  split; [reflexivity|]. split.
  { intros lockfile value. unfold toTomlValue.
    destruct (prepareManifest _ _ _); simpl; [|discriminate].
    destruct (mapM _ (members _)); simpl; [|discriminate].
    destruct (mapM _ (sortByName _)); simpl; [|discriminate].
    by intros [= <-]. }
  intros lockfile workspace0. apply isLockfileValid_version.
Qed.

End LockfileFiles.

Lemma readLockfile_never_throws_witness :
  readLockfile (paths:=simplePaths) (regs:=simpleRegistrations) (codec:=bookCodec)
    (fs:=textFiles) [("/book/vba-block.lock", "version = ")] "/book" = Ok None
  ∧ readLockfile (paths:=simplePaths) (regs:=simpleRegistrations) (codec:=sourcelessCodec)
      (fs:=textFiles) [("/book/vba-block.lock", bookLockText)] "/book" = Ok None.
Proof.
  split.
  - destruct (readLockfile_never_throws (paths:=simplePaths) (regs:=simpleRegistrations)
                (codec:=bookCodec) (fs:=textFiles)
                [("/book/vba-block.lock", "version = ")] "/book") as (_ & _ & _ & H).
    destruct (H "version = " eq_refl) as [Hparse _].
    exact (Hparse (EnvError "not the lockfile of the book") eq_refl).
  - destruct (readLockfile_never_throws (paths:=simplePaths) (regs:=simpleRegistrations)
                (codec:=sourcelessCodec) (fs:=textFiles)
                [("/book/vba-block.lock", bookLockText)] "/book") as (_ & _ & _ & H).
    destruct (H bookLockText eq_refl) as [_ Hparsed].
    destruct (Hparsed sourcelessTree eq_refl) as [_ Hentry].
    apply (Hentry _ (VTable [("name", VString "foo"); ("version", VString "1.1.0");
                             ("dependencies", VArray [])]) eq_refl).
    + apply list_elem_of_here.
    + right. right. left. reflexivity.
Defined.

Lemma lockfile_is_vba_block_lock_witness :
  readLockfile (paths:=simplePaths) (regs:=simpleRegistrations) (codec:=bookCodec)
    (fs:=textFiles) [("/book/vba-block.lock", bookLockText)] "/book"
  = Ok (Some (lockedBook [fooLocked] []))
  ∧ writeLockfile (paths:=simplePaths) (regs:=simpleRegistrations) (codec:=bookCodec)
      (env:=exampleEnv) (fs:=textFiles) "/book" (lockedBook [fooRange] []) []
    = Ok [("/book/vba-block.lock", bookLockText)].
Proof.
  split; [|reflexivity].
  destruct (lockfile_is_vba_block_lock (paths:=simplePaths) (regs:=simpleRegistrations)
              (codec:=bookCodec) (env:=exampleEnv) (fs:=textFiles) "/book")
    as (_ & Hread & _).
  apply (Hread _ bookLockText); reflexivity.
Defined.

(** C6, counterexample. In a project directory that holds [project.lock],
    a lockfile text that [fromToml] accepts, and no [vba-block.lock],
    [readLockfile] finds no lockfile; and [writeLockfile] leaves
    [project.lock] alone and writes [vba-block.lock]. *)
Lemma lockfile_name_counterexample :
  let w := [("/book/project.lock", bookLockText)] in
  fromToml (paths:=simplePaths) (regs:=simpleRegistrations) (codec:=bookCodec)
    bookLockText "/book" = Ok (lockedBook [fooLocked] [])
  ∧ readLockfile (paths:=simplePaths) (regs:=simpleRegistrations) (codec:=bookCodec)
      (fs:=textFiles) w "/book" = Ok None
  ∧ writeLockfile (paths:=simplePaths) (regs:=simpleRegistrations) (codec:=bookCodec)
      (env:=exampleEnv) (fs:=textFiles) "/book" (lockedBook [fooRange] []) w
    = Ok (("/book/vba-block.lock", bookLockText) :: w).
Proof. repeat split; vm_compute; reflexivity. Qed.

(* ------------------------------------------------------------------ *)
(** ** Writing a lockfile and reading it back *)
(* ------------------------------------------------------------------ *)
Section RoundTrip.
Context {paths : PathOps} {regs : RegistrationOps} {codec : TomlCodec}
        {env : LockfileEnv}.

Lemma mapM_pure {A B} (f : A → result B) (g : A → B) (l : list A) :
  (∀ x, x ∈ l → f x = Ok (g x)) → mapM f l = Ok (g <$> l).
Proof.
  induction l as [|x l IH]; intros H; simpl; [done|].
  rewrite (H x) by left. simpl. rewrite IH; [done|].
  intros y Hy. apply H. by right.
Qed.

Lemma mapM_fmap_pure {A B C} (f : B → result C) (h : A → B) (g : A → C) (l : list A) :
  (∀ x, x ∈ l → f (h x) = Ok (g x)) → mapM f (h <$> l) = Ok (g <$> l).
Proof.
  induction l as [|x l IH]; intros H; [done|].
  rewrite !fmap_cons. cbn [mapM]. rewrite (H x) by left. cbn [rbind].
  rewrite IH; [done|]. intros y Hy. apply H. by right.
Qed.

Lemma insertByName_perm (r : Registration) (graph : DependencyGraph) :
  insertByName r graph ≡ₚ r :: graph.
Proof.
  induction graph as [|x graph IH]; simpl; [done|].
  destruct (String.ltb (name x) (name r)); [|done].
  rewrite IH. apply Permutation_swap.
Qed.

Lemma sortByName_perm (graph : DependencyGraph) : sortByName graph ≡ₚ graph.
Proof.
  induction graph as [|r graph IH]; simpl; [done|].
  by rewrite insertByName_perm, IH.
Qed.

Lemma append_cons (c : ascii) (s t : string) : String c s +:+ t = String c (s +:+ t).
Proof. reflexivity. Qed.

Lemma beforeSpace_id (n rest : string) :
  noSpace n → beforeSpace (n +:+ " " +:+ rest) = n.
Proof.
  unfold noSpace. induction n as [|c n IH]; [done|].
  rewrite append_cons. simpl.
  destruct (Ascii.eqb c " "); [discriminate|].
  intros [= Hn]. by rewrite (IH Hn).
Qed.

Lemma getRegistration_found (graph : DependencyGraph) (d : Dependency) :
  dep_name d ∈ name <$> graph → is_Some (getRegistration graph d).
Proof.
  intros (r & Hr & Hin)%list_elem_of_fmap. unfold getRegistration.
  destruct (find _ graph) eqn:Hfind; [eauto|].
  apply list_elem_of_In in Hin.
  pose proof (find_none _ _ Hfind r Hin) as Hnone. simpl in Hnone.
  by rewrite bool_decide_eq_true_2 in Hnone.
Qed.

Lemma toDependencyId_found (graph : DependencyGraph) (dir : string) (d : Dependency) :
  dep_name d ∈ name <$> graph →
  toDependencyId d graph dir = Ok (dependencyId graph dir d).
Proof.
  intros [r Hr]%getRegistration_found. unfold toDependencyId, dependencyId.
  by rewrite Hr.
Qed.

Lemma dependencyId_name (graph : DependencyGraph) (dir : string) (d : Dependency) :
  dep_name d ∈ name <$> graph → noSpace (dep_name d) →
  beforeSpace (dependencyId graph dir d) = dep_name d.
Proof.
  intros [r Hr]%getRegistration_found Hn. unfold dependencyId. rewrite Hr.
  by apply beforeSpace_id.
Qed.

Lemma prepareManifest_found (graph : DependencyGraph) (dir : string) (s : Snapshot) :
  (∀ d, d ∈ snap_dependencies s → dep_name d ∈ name <$> graph) →
  prepareManifest s graph dir = Ok (snapshotTree graph dir s).
Proof.
  intros H. unfold prepareManifest.
  rewrite (mapM_pure _ (dependencyId graph dir)); [done|].
  intros d Hd. by apply toDependencyId_found, H.
Qed.

Lemma preparePackage_found (graph : DependencyGraph) (dir : string) (r : Registration) :
  (∀ d, d ∈ dependencies r → dep_name d ∈ name <$> graph) →
  preparePackage graph dir r = Ok (packageTree graph dir r).
Proof.
  intros H. unfold preparePackage.
  rewrite (mapM_pure _ (dependencyId graph dir)); [done|].
  intros d Hd. by apply toDependencyId_found, H.
Qed.

Lemma lockable_root lockfile dir d :
  lockable lockfile dir → d ∈ snap_dependencies (root (workspace lockfile)) →
  dep_name d ∈ name <$> packages lockfile ∧ noSpace (dep_name d).
Proof.
  intros Hl Hd. apply (lockable_dependencies _ _ Hl).
  unfold allDependencies. apply elem_of_app. by left.
Qed.

Lemma lockable_member lockfile dir s d :
  lockable lockfile dir → s ∈ members (workspace lockfile) →
  d ∈ snap_dependencies s →
  dep_name d ∈ name <$> packages lockfile ∧ noSpace (dep_name d).
Proof.
  intros Hl Hs Hd. apply (lockable_dependencies _ _ Hl).
  unfold allDependencies. apply elem_of_app. right. apply elem_of_app. left.
  apply list_elem_of_bind. eauto.
Qed.

Lemma lockable_package lockfile dir r d :
  lockable lockfile dir → r ∈ packages lockfile → d ∈ dependencies r →
  dep_name d ∈ name <$> packages lockfile ∧ noSpace (dep_name d).
Proof.
  intros Hl Hr Hd. apply (lockable_dependencies _ _ Hl).
  unfold allDependencies. apply elem_of_app. right. apply elem_of_app. right.
  apply list_elem_of_bind. eauto.
Qed.

Lemma sortByName_names (graph : DependencyGraph) (n : string) :
  n ∈ name <$> sortByName graph ↔ n ∈ name <$> graph.
Proof. by rewrite sortByName_perm. Qed.

Lemma sortByName_elem (graph : DependencyGraph) (r : Registration) :
  r ∈ sortByName graph ↔ r ∈ graph.
Proof. by rewrite sortByName_perm. Qed.

(** [toToml] succeeds on a lockable lockfile, with this document. *)
Lemma toTomlValue_lockable (lockfile : Lockfile) (dir : string) :
  lockable lockfile dir → toTomlValue lockfile dir = Ok (lockfileTree lockfile dir).
Proof.
  intros Hl. unfold toTomlValue.
  rewrite prepareManifest_found.
  2: { intros d Hd. by destruct (lockable_root _ dir d Hl Hd). }
  simpl.
  rewrite (mapM_pure _ (snapshotTree (packages lockfile) dir)).
  2: { intros s Hs. apply prepareManifest_found. intros d Hd.
       by destruct (lockable_member _ dir s d Hl Hs Hd). }
  simpl.
  rewrite (mapM_pure _ (packageTree (sortByName (packages lockfile)) dir)).
  2: { intros r Hr. apply (proj1 (sortByName_elem _ _)) in Hr.
       apply preparePackage_found. intros d Hd.
       apply sortByName_names. by destruct (lockable_package _ dir r d Hl Hr Hd). }
  reflexivity.
Qed.

Lemma loadPackage_tree (graph : DependencyGraph) (dir : string) (r : Registration) :
  truthy (name r) = true → truthy (version r) = true →
  truthy (prepareSource (source r) dir) = true →
  loadPackage dir (packageTree graph dir r)
  = Ok (rehydratedHead dir r, VString <$> (dependencyId graph dir <$> dependencies r)).
Proof.
  intros Hn Hv Hs. unfold loadPackage, packageTree. simpl.
  rewrite Hn, Hv, Hs. reflexivity.
Qed.

Lemma loadPackages_trees (graph rs : DependencyGraph) (dir : string)
    (byName : gmap string Dependency) :
  (∀ r, r ∈ rs → truthy (name r) = true ∧ truthy (version r) = true
                 ∧ truthy (prepareSource (source r) dir) = true) →
  loadPackages dir (packageTree graph dir <$> rs) byName
  = Ok ((fun r => (rehydratedHead dir r,
                   VString <$> (dependencyId graph dir <$> dependencies r))) <$> rs,
        lockedIndex dir rs byName).
Proof.
  revert byName. induction rs as [|r rs IH]; intros byName H; [done|].
  destruct (H r) as (Hn & Hv & Hs); [left|].
  rewrite fmap_cons. cbn [loadPackages].
  rewrite (loadPackage_tree _ _ _ Hn Hv Hs). cbn [rbind fst].
  rewrite IH; [done|]. intros r' Hr'. apply H. by right.
Qed.

Lemma lockedIndex_lookup (dir : string) (graph : DependencyGraph) (n : string) :
  lockedIndex dir graph ∅ !! n
  = toDependency ∘ rehydratedHead dir <$> lastNamed name graph n.
Proof.
  unfold lastNamed, lockedIndex. induction graph as [|r graph IH] using rev_ind; [done|].
  rewrite foldl_app, filter_app, filter_cons, filter_nil. simpl.
  destruct (decide (name r = n)) as [<-|Hne].
  - by rewrite lookup_insert_eq, last_snoc.
  - rewrite lookup_insert_ne by done. by rewrite app_nil_r.
Qed.

Lemma lastNamed_found {A} (key : A → string) (items : list A) (n : string) :
  n ∈ key <$> items → is_Some (lastNamed key items n).
Proof.
  intros (x & -> & Hx)%list_elem_of_fmap. unfold lastNamed.
  assert (x ∈ filter (fun item => key item = key x) items) as Hin
    by (by apply list_elem_of_filter).
  destruct (filter _ items) as [|y l] using rev_ind; [by apply elem_of_nil in Hin|].
  rewrite last_snoc. eauto.
Qed.

(** The second pass on the ids of dependencies that name packages. *)
Lemma getDependency_ids (graph index : DependencyGraph) (dir : string)
    (ds : list Dependency) :
  (∀ d, d ∈ ds → dep_name d ∈ name <$> graph ∧ noSpace (dep_name d)) →
  (∀ n, n ∈ name <$> graph → n ∈ name <$> index) →
  mapM (fun id0 => getDependency id0 (lockedIndex dir index ∅))
       (VString <$> (dependencyId graph dir <$> ds))
  = Ok (lockedDependency dir index <$> ds).
Proof.
  intros Hds Hsub. rewrite <-list_fmap_compose.
  induction ds as [|d ds IH]; [done|].
  destruct (Hds d) as [Hin Hns]; [left|].
  rewrite !fmap_cons. cbn [mapM]. rewrite IH by (intros d' Hd'; apply Hds; by right).
  unfold compose at 1. cbn [getDependency].
  rewrite (dependencyId_name _ _ _ Hin Hns), lockedIndex_lookup.
  unfold lockedDependency.
  destruct (lastNamed_found name index (dep_name d) (Hsub _ Hin)) as [r ->].
  reflexivity.
Qed.

Lemma hydrate_package (graph index : DependencyGraph) (dir : string) (r : Registration) :
  (∀ d, d ∈ dependencies r → dep_name d ∈ name <$> graph ∧ noSpace (dep_name d)) →
  (∀ n, n ∈ name <$> graph → n ∈ name <$> index) →
  hydrate (lockedIndex dir index ∅)
    (rehydratedHead dir r, VString <$> (dependencyId graph dir <$> dependencies r))
  = Ok (lockedRegistration dir index r).
Proof.
  intros Hds Hsub. unfold hydrate. cbn [fst snd].
  by rewrite (getDependency_ids graph index dir _ Hds Hsub).
Qed.

Lemma toManifest_tree (graph index : DependencyGraph) (dir : string) (s : Snapshot) :
  truthy (snap_name s) = true → truthy (snap_version s) = true →
  (∀ d, d ∈ snap_dependencies s → dep_name d ∈ name <$> graph ∧ noSpace (dep_name d)) →
  (∀ n, n ∈ name <$> graph → n ∈ name <$> index) →
  toManifest (snapshotTree graph dir s) (lockedIndex dir index ∅)
  = Ok (lockedSnapshot dir index s).
Proof.
  intros Hn Hv Hds Hsub. unfold toManifest, snapshotTree. simpl.
  rewrite Hn, Hv. simpl.
  by rewrite (getDependency_ids graph index dir _ Hds Hsub).
Qed.

(** Reading the document of a lockable lockfile. *)
Lemma fromTomlValue_lockable (lockfile : Lockfile) (dir : string) :
  lockable lockfile dir →
  fromTomlValue (lockfileTree lockfile dir) dir = Ok (lockedView dir (sorted lockfile)).
Proof.
  intros Hl. unfold fromTomlValue, lockfileTree. simpl.
  set (graph := packages lockfile). set (index := sortByName graph).
  assert (∀ n, n ∈ name <$> graph → n ∈ name <$> index) as Hsub
    by (intros n; apply sortByName_names).
  rewrite (loadPackages_trees index index dir ∅).
  2: { intros r Hr. apply (proj1 (sortByName_elem _ _)) in Hr.
       by apply (lockable_packages _ _ Hl). }
  cbn [rbind fst snd].
  rewrite (mapM_fmap_pure _ _ (lockedRegistration dir index)).
  2: { intros r Hr. apply (proj1 (sortByName_elem _ _)) in Hr.
       apply (hydrate_package index index dir r); [|done].
       intros d Hd. destruct (lockable_package _ dir r d Hl Hr Hd) as [Hin Hns].
       split; [by apply sortByName_names | done]. }
  cbn [rbind].
  destruct (lockable_snapshots _ _ Hl (root (workspace lockfile))) as [Hn Hv]; [left|].
  rewrite (toManifest_tree graph index dir _ Hn Hv).
  2: { intros d Hd. by apply (lockable_root _ dir). }
  2: done.
  cbn [rbind].
  rewrite (mapM_fmap_pure _ _ (lockedSnapshot dir index)).
  2: { intros s Hs.
       destruct (lockable_snapshots _ _ Hl s) as [Hn' Hv']; [by right|].
       apply (toManifest_tree graph index dir _ Hn' Hv'); [|done].
       intros d Hd. by apply (lockable_member _ dir s). }
  cbn [rbind]. reflexivity.
Qed.

(** C2, as amended. For a lockfile that satisfies the resolver's
    invariants (each dependency names a package of the graph, names have no
    space, names, versions and sources are not empty) and a parser that
    reads back the written document, [toToml] succeeds, sorting the
    packages, and [fromToml] of its text succeeds and returns the lockfile
    in its locked view: the same names and versions of the root, of the
    members and of the packages, the packages in sorted order, metadata
    version 1, ids recomputed, path sources made relative and absolute
    again, and every dependency replaced by the one derived from the
    package of its name. *)
Theorem fromToml_toToml_locked_view (lockfile : Lockfile) (dir : string) :
  lockable lockfile dir →
  readsBack lockfile dir →
  ∃ text,
    toToml lockfile dir = Ok (text, sorted lockfile)
    ∧ fromToml text dir = Ok (lockedView dir (sorted lockfile)).
Proof.
  intros Hl Hcodec.
  pose proof (toTomlValue_lockable lockfile dir Hl) as Hvalue.
  exists (header +:+ convertToToml (lockfileTree lockfile dir)). split.
  - unfold toToml. by rewrite Hvalue.
  - unfold fromToml. rewrite (Hcodec _ Hvalue). simpl.
    by apply fromTomlValue_lockable.
Qed.

(** Whatever the codec and the helpers are, the written document does not
    tell a range from the version it was resolved to. *)
Lemma toTomlValue_forgets_range (dir : string) :
  toTomlValue (lockedBook [fooRange] []) dir
  = toTomlValue (lockedBook [fooLocked] []) dir.
Proof. reflexivity. Qed.

End RoundTrip.

Lemma book_lockable :
  lockable (paths:=simplePaths) (regs:=simpleRegistrations)
    (lockedBook [fooRange] []) "/book".
Proof.
  split.
  - intros d Hd. vm_compute in Hd. apply list_elem_of_singleton in Hd as ->.
    split; [|reflexivity]. apply list_elem_of_here.
  - intros r Hr%list_elem_of_singleton. subst r. repeat split.
  - intros s Hs%list_elem_of_singleton. subst s. split; reflexivity.
Qed.

Lemma book_readsBack :
  readsBack (paths:=simplePaths) (regs:=simpleRegistrations) (codec:=bookCodec)
    (env:=exampleEnv) (lockedBook [fooRange] []) "/book".
Proof. intros value [= <-]. reflexivity. Qed.

Lemma fromToml_toToml_locked_view_witness :
  ∃ text,
    toToml (paths:=simplePaths) (regs:=simpleRegistrations) (codec:=bookCodec)
      (env:=exampleEnv) (lockedBook [fooRange] []) "/book"
    = Ok (text, sorted (lockedBook [fooRange] []))
    ∧ fromToml (paths:=simplePaths) (regs:=simpleRegistrations) (codec:=bookCodec)
        text "/book"
      = Ok (lockedView (paths:=simplePaths) (regs:=simpleRegistrations) "/book"
              (sorted (lockedBook [fooRange] []))).
Proof.
  apply (fromToml_toToml_locked_view (paths:=simplePaths) (regs:=simpleRegistrations)
           (codec:=bookCodec) (env:=exampleEnv)
           (lockedBook [fooRange] []) "/book" book_lockable book_readsBack).
Defined.

(** C2, counterexample. The lockfile of a book that depends on
    [foo ^1.0.0], resolved to [foo 1.1.0]: it is lockable, the parser reads
    its document back, its packages are sorted and its metadata and ids are
    those of the codec; yet what [fromToml] returns for the text of
    [toToml] has the root depend on [foo 1.1.0], and so is not the lockfile
    that was written. *)
Lemma fromToml_toToml_counterexample :
  let lockfile := lockedBook [fooRange] [] in
  lockable (paths:=simplePaths) (regs:=simpleRegistrations) lockfile "/book"
  ∧ readsBack (paths:=simplePaths) (regs:=simpleRegistrations) (codec:=bookCodec)
      (env:=exampleEnv) lockfile "/book"
  ∧ toToml (paths:=simplePaths) (regs:=simpleRegistrations) (codec:=bookCodec)
      (env:=exampleEnv) lockfile "/book" = Ok (bookLockText, lockfile)
  ∧ fromToml (paths:=simplePaths) (regs:=simpleRegistrations) (codec:=bookCodec)
      bookLockText "/book" = Ok (lockedBook [fooLocked] [])
  ∧ lockedBook [fooLocked] [] ≠ lockfile.
Proof.
  split; [exact book_lockable|]. split; [exact book_readsBack|].
  split; [reflexivity|]. split; [reflexivity|]. discriminate.
Qed.

(* ================================================================== *)
(** * Part III: further properties of the embedded code *)
(* ================================================================== *)

(* ------------------------------------------------------------------ *)
(** ** Writing the lockfile *)
(* ------------------------------------------------------------------ *)
Section WritingFacts.
Context {paths : PathOps} {regs : RegistrationOps} {codec : TomlCodec}
        {env : LockfileEnv}.

Lemma mapM_Ok_inv {A B} (f : A → result B) (l : list A) (ys : list B) :
  mapM f l = Ok ys → Forall2 (fun x y => f x = Ok y) l ys.
Proof.
  revert ys. induction l as [|x l IH]; intros ys; simpl.
  - intros [= <-]. constructor.
  - destruct (f x) as [y|e] eqn:Hx; simpl; [|discriminate].
    destruct (mapM f l) as [ys'|e]; simpl; [|discriminate].
    intros [= <-]. constructor; [done | by apply IH].
Qed.

Lemma mapM_Err_inv {A B} (f : A → result B) (l : list A) (e : Error) :
  mapM f l = Err e → ∃ x, x ∈ l ∧ f x = Err e.
Proof.
  induction l as [|x l IH]; simpl; [discriminate|].
  destruct (f x) as [y|e'] eqn:Hx; simpl.
  - destruct (mapM f l) as [ys'|e']; simpl; [discriminate|].
    intros [= <-]. destruct (IH eq_refl) as (x' & Hin & Hx').
    exists x'. split; [by right | done].
  - intros [= <-]. exists x. split; [left | done].
Qed.

Lemma mapM_Ok_each {A B} (f : A → result B) (l : list A) (ys : list B) (x : A) :
  mapM f l = Ok ys → x ∈ l → ∃ y, f x = Ok y.
Proof.
  intros H%mapM_Ok_inv Hx. induction H as [|x' y l ys Hxy H IH].
  - by apply elem_of_nil in Hx.
  - apply elem_of_cons in Hx as [-> | Hx]; eauto.
Qed.

Lemma getRegistration_named (graph : DependencyGraph) (d : Dependency) (r : Registration) :
  getRegistration graph d = Some r → r ∈ graph ∧ name r = dep_name d.
Proof.
  unfold getRegistration. intros [Hin Hn]%find_some.
  split; [by apply list_elem_of_In | by apply bool_decide_eq_true in Hn].
Qed.

Lemma toDependencyId_Ok_inv (graph : DependencyGraph) (dir : string) (d : Dependency)
    (id0 : string) :
  toDependencyId d graph dir = Ok id0 → dep_name d ∈ name <$> graph.
Proof.
  unfold toDependencyId.
  destruct (getRegistration graph d) as [r|] eqn:Hr; [|discriminate].
  intros _. apply getRegistration_named in Hr as [Hin <-].
  by apply list_elem_of_fmap_2.
Qed.

Lemma toDependencyId_Err_inv (graph : DependencyGraph) (dir : string) (d : Dependency)
    (e : Error) :
  toDependencyId d graph dir = Err e →
  e = AssertionError "No package found for dependency".
Proof.
  unfold toDependencyId. destruct (getRegistration graph d); [discriminate|].
  by intros [= <-].
Qed.

Lemma prepareManifest_Ok_inv graph dir (s : Snapshot) (t : Toml) (d : Dependency) :
  prepareManifest s graph dir = Ok t → d ∈ snap_dependencies s →
  dep_name d ∈ name <$> graph.
Proof.
  unfold prepareManifest.
  destruct (mapM _ (snap_dependencies s)) as [ids|e] eqn:Hm; [|discriminate].
  intros _ Hd. destruct (mapM_Ok_each _ _ _ d Hm Hd) as [id0 Hid].
  by eapply toDependencyId_Ok_inv.
Qed.

Lemma prepareManifest_Err_inv graph dir (s : Snapshot) (e : Error) :
  prepareManifest s graph dir = Err e →
  e = AssertionError "No package found for dependency".
Proof.
  unfold prepareManifest.
  destruct (mapM _ (snap_dependencies s)) as [ids|e'] eqn:Hm; [discriminate|].
  intros [= <-]. destruct (mapM_Err_inv _ _ _ Hm) as (d & _ & Hd).
  by eapply toDependencyId_Err_inv.
Qed.

Lemma preparePackage_Ok_inv graph dir (r : Registration) (t : Toml) (d : Dependency) :
  preparePackage graph dir r = Ok t → d ∈ dependencies r →
  dep_name d ∈ name <$> graph.
Proof.
  unfold preparePackage.
  destruct (mapM _ (dependencies r)) as [ids|e] eqn:Hm; [|discriminate].
  intros _ Hd. destruct (mapM_Ok_each _ _ _ d Hm Hd) as [id0 Hid].
  by eapply toDependencyId_Ok_inv.
Qed.

Lemma preparePackage_Err_inv graph dir (r : Registration) (e : Error) :
  preparePackage graph dir r = Err e →
  e = AssertionError "No package found for dependency".
Proof.
  unfold preparePackage.
  destruct (mapM _ (dependencies r)) as [ids|e'] eqn:Hm; [discriminate|].
  intros [= <-]. destruct (mapM_Err_inv _ _ _ Hm) as (d & _ & Hd).
  by eapply toDependencyId_Err_inv.
Qed.

(** The document of a lockfile whose dependencies all name packages. *)
Lemma toTomlValue_named (lockfile : Lockfile) (dir : string) :
  (∀ d, d ∈ allDependencies lockfile → dep_name d ∈ name <$> packages lockfile) →
  toTomlValue lockfile dir = Ok (lockfileTree lockfile dir).
Proof.
  intros H. unfold toTomlValue.
  rewrite prepareManifest_found.
  2: { intros d Hd. apply H. unfold allDependencies. apply elem_of_app. by left. }
  cbn [rbind].
  rewrite (mapM_pure _ (snapshotTree (packages lockfile) dir)).
  2: { intros s Hs. apply prepareManifest_found. intros d Hd. apply H.
       unfold allDependencies. apply elem_of_app. right. apply elem_of_app. left.
       apply list_elem_of_bind. eauto. }
  cbn [rbind].
  rewrite (mapM_pure _ (packageTree (sortByName (packages lockfile)) dir)).
  2: { intros r Hr. apply (proj1 (sortByName_elem _ _)) in Hr.
       apply preparePackage_found. intros d Hd. apply sortByName_names, H.
       unfold allDependencies. apply elem_of_app. right. apply elem_of_app. right.
       apply list_elem_of_bind. eauto. }
  reflexivity.
Qed.

Lemma toTomlValue_Ok_named (lockfile : Lockfile) (dir : string) (value : Toml) :
  toTomlValue lockfile dir = Ok value →
  ∀ d, d ∈ allDependencies lockfile → dep_name d ∈ name <$> packages lockfile.
Proof.
  intros Hv d Hd. unfold toTomlValue in Hv.
  destruct (prepareManifest _ _ _) as [root0|e] eqn:Hroot; [|discriminate].
  cbn [rbind] in Hv.
  destruct (mapM _ (members _)) as [members0|e] eqn:Hmem; [|discriminate].
  cbn [rbind] in Hv.
  destruct (mapM _ (sortByName _)) as [packages0|e] eqn:Hpk; [|discriminate].
  unfold allDependencies in Hd.
  apply elem_of_app in Hd as [Hd | Hd]; [by eapply prepareManifest_Ok_inv|].
  apply elem_of_app in Hd as [Hd | Hd].
  - apply list_elem_of_bind in Hd as (s & Hd & Hs).
    destruct (mapM_Ok_each _ _ _ s Hmem Hs) as [t Ht].
    by eapply prepareManifest_Ok_inv.
  - apply list_elem_of_bind in Hd as (r & Hd & Hr).
    apply sortByName_elem in Hr.
    destruct (mapM_Ok_each _ _ _ r Hpk Hr) as [t Ht].
    apply sortByName_names. by eapply preparePackage_Ok_inv.
Qed.

Lemma toTomlValue_Err_inv (lockfile : Lockfile) (dir : string) (e : Error) :
  toTomlValue lockfile dir = Err e →
  e = AssertionError "No package found for dependency".
Proof.
  intros Hv. unfold toTomlValue in Hv.
  destruct (prepareManifest _ _ _) as [root0|e'] eqn:Hroot.
  2: { injection Hv as <-. by eapply prepareManifest_Err_inv. }
  cbn [rbind] in Hv.
  destruct (mapM _ (members _)) as [members0|e'] eqn:Hmem.
  2: { injection Hv as <-. destruct (mapM_Err_inv _ _ _ Hmem) as (s & _ & Hs).
       by eapply prepareManifest_Err_inv. }
  cbn [rbind] in Hv.
  destruct (mapM _ (sortByName _)) as [packages0|e'] eqn:Hpk; [discriminate|].
  injection Hv as <-. destruct (mapM_Err_inv _ _ _ Hpk) as (r & _ & Hr).
  by eapply preparePackage_Err_inv.
Qed.

Lemma toToml_value (lockfile : Lockfile) (dir : string) (text : string)
    (lockfile' : Lockfile) :
  toToml lockfile dir = Ok (text, lockfile') →
  toTomlValue lockfile dir = Ok (lockfileTree lockfile dir)
  ∧ text = header +:+ convertToToml (lockfileTree lockfile dir)
  ∧ lockfile' = sorted lockfile.
Proof.
  unfold toToml.
  destruct (toTomlValue lockfile dir) as [value|e] eqn:Hv; [|discriminate].
  pose proof (toTomlValue_named lockfile dir (toTomlValue_Ok_named _ _ _ Hv)) as Htree.
  rewrite Hv in Htree. injection Htree as ->. cbn [rbind]. by intros [= <- <-].
Qed.

(** X1. [toToml] returns a text exactly when every dependency of the
    root, of a member or of a package names a package of the lockfile; and
    when it throws, it is the assertion [No package found for dependency]. *)
Theorem toToml_succeeds_iff (lockfile : Lockfile) (dir : string) :
  ((∃ out, toToml lockfile dir = Ok out)
   ↔ ∀ d, d ∈ allDependencies lockfile → dep_name d ∈ name <$> packages lockfile)
  ∧ (∀ e, toToml lockfile dir = Err e →
          e = AssertionError "No package found for dependency").
Proof.
  split; [split|].
  - intros [out Hout]. unfold toToml in Hout.
    destruct (toTomlValue lockfile dir) as [value|e] eqn:Hv; [|discriminate].
    by eapply toTomlValue_Ok_named.
  - intros H. unfold toToml. rewrite (toTomlValue_named _ _ H). cbn [rbind]. eauto.
  - intros e. unfold toToml.
    destruct (toTomlValue lockfile dir) as [value|e'] eqn:Hv; [discriminate|].
    intros [= <-]. by eapply toTomlValue_Err_inv.
Qed.

Lemma ltb_le (a b : string) : String.ltb a b = true → String.le a b.
Proof.
  unfold String.le, String.ltb, String.leb.
  by destruct (String.compare a b).
Qed.

Lemma not_ltb_le (a b : string) : String.ltb a b = false → String.le b a.
Proof.
  unfold String.le, String.ltb, String.leb.
  rewrite (String.compare_antisym a b).
  by destruct (String.compare b a).
Qed.

Lemma insertByName_sorted (r : Registration) (graph : DependencyGraph) :
  sortedByName graph → sortedByName (insertByName r graph).
Proof.
  unfold sortedByName. induction 1 as [|x graph Hsorted IH Hx]; simpl.
  - repeat constructor.
  - destruct (String.ltb (name x) (name r)) eqn:Hlt.
    + constructor; [done|]. rewrite insertByName_perm.
      constructor; [by apply ltb_le | done].
    + apply not_ltb_le in Hlt. constructor; [by constructor|].
      constructor; [done|].
      eapply Forall_impl; [exact Hx|]. intros y Hy. simpl in Hy. by etrans.
Qed.

Lemma sortByName_sorted (graph : DependencyGraph) : sortedByName (sortByName graph).
Proof.
  induction graph as [|r graph IH]; simpl; [constructor|].
  by apply insertByName_sorted.
Qed.

(** X2. When [toToml] returns, the lockfile's packages have been put in
    non-decreasing order of their names, without adding or dropping one,
    the metadata and the workspace are untouched, and the [packages] array
    of the written document lists the names in that order. *)
Theorem toToml_sorts_packages (lockfile lockfile' : Lockfile) (dir text : string) :
  toToml lockfile dir = Ok (text, lockfile') →
  packages lockfile' ≡ₚ packages lockfile
  ∧ sortedByName (packages lockfile')
  ∧ metadata lockfile' = metadata lockfile
  ∧ workspace lockfile' = workspace lockfile
  ∧ ∃ value, toTomlValue lockfile dir = Ok value
             ∧ (fun entry => field entry "name") <$> array_items (field value "packages")
               = (fun r => VString (name r)) <$> packages lockfile'.
Proof.
  intros (Hv & _ & ->)%toToml_value. simpl.
  split; [apply sortByName_perm|]. split; [apply sortByName_sorted|].
  split; [done|]. split; [done|].
  eexists. split; [exact Hv|]. simpl.
  rewrite <-list_fmap_compose. reflexivity.
Qed.

Section WritingFiles.
Context {World : Type} {fs : FileSystem World}.

(** X3. Whatever goes wrong in [writeLockfile], a dependency without a
    package or a failing [writeFile], the error thrown is
    [lockfile-write-failed], with the text of the template in the [catch]
    block for the path of [vba-block.lock]; the cause is not passed on. *)
Theorem writeLockfile_failure (dir : string) (lockfile : Lockfile) (w : World)
    (e : Error) :
  writeLockfile dir lockfile w = Err e →
  e = CliError "lockfile-write-failed"
        ("Failed to write lockfile to " +:+ DQ +:+ join dir "vba-block.lock" +:+ DQ +:+ ".")
  ∧ ((∃ cause, toToml lockfile dir = Err cause)
     ∨ (∃ text lockfile' cause,
          toToml lockfile dir = Ok (text, lockfile')
          ∧ writeFile (join dir "vba-block.lock") text w = Err cause)).
Proof.
  unfold writeLockfile, try_catch.
  destruct (toToml lockfile dir) as [[text lockfile']|cause] eqn:Ht; simpl.
  - destruct (writeFile _ text w) as [w'|cause] eqn:Hw; [discriminate|].
    intros [= <-]. split; [reflexivity|]. right. eauto.
  - intros [= <-]. split; [reflexivity|]. left. eauto.
Qed.

End WritingFiles.
End WritingFacts.

(* ------------------------------------------------------------------ *)
(** ** Reading the lockfile *)
(* ------------------------------------------------------------------ *)
Section ReadingFacts.
Context {paths : PathOps} {regs : RegistrationOps} {codec : TomlCodec}
        {env : LockfileEnv}.

Lemma as_string_truthy (value : Toml) (s : string) :
  as_string value = Ok s → toml_truthy value = truthy s.
Proof. destruct value; simpl; try discriminate. by intros [= ->]. Qed.

Lemma loadPackage_Ok_inv (dir : string) (value : Toml)
    (registration : RegistrationHead * list Toml) :
  loadPackage dir value = Ok registration → acceptedHead (fst registration).
Proof.
  unfold loadPackage, ok.
  destruct (toml_truthy (field value "name")) eqn:Hn; simpl; [|discriminate].
  destruct (toml_truthy (field value "version")) eqn:Hv; simpl; [|discriminate].
  destruct (toml_truthy (field value "source") && isArray (field value "dependencies"));
    simpl; [|discriminate].
  destruct (as_string (field value "name")) as [n|] eqn:En; simpl; [|discriminate].
  destruct (as_string (field value "version")) as [v|] eqn:Ev; simpl; [|discriminate].
  destruct (as_string (field value "source")) as [s|]; simpl; [|discriminate].
  intros [= <-]. unfold acceptedHead. simpl.
  rewrite <-(as_string_truthy _ _ En), <-(as_string_truthy _ _ Ev). done.
Qed.

Lemma loadPackages_Ok_inv (dir : string) (values : list Toml)
    (byName byName' : gmap string Dependency)
    (loaded : list (RegistrationHead * list Toml)) :
  loadPackages dir values byName = Ok (loaded, byName') →
  Forall acceptedHead (fst <$> loaded)
  ∧ byName' = foldl (fun m h => <[head_name h := toDependency h]> m) byName
                    (fst <$> loaded).
Proof.
  revert byName loaded. induction values as [|value values IH]; intros byName loaded; simpl.
  - intros [= <- <-]. split; [constructor | done].
  - destruct (loadPackage dir value) as [registration|e] eqn:Hl; simpl; [|discriminate].
    destruct (loadPackages dir values _) as [[loaded1 byName1]|e] eqn:Hr; simpl;
      [|discriminate].
    intros [= <- <-]. destruct (IH _ _ Hr) as [Hall ->].
    split; [|done]. rewrite fmap_cons. constructor; [|done].
    by eapply loadPackage_Ok_inv.
Qed.

Lemma index_lookup_inv (hs : list RegistrationHead) (byName : gmap string Dependency)
    (n : string) (d : Dependency) :
  foldl (fun m h => <[head_name h := toDependency h]> m) byName hs !! n = Some d →
  (∃ h, h ∈ hs ∧ d = toDependency h) ∨ byName !! n = Some d.
Proof.
  revert byName. induction hs as [|h hs IH]; intros byName; simpl; [by right|].
  intros [(h' & Hin & ->) | Hl]%IH.
  - left. exists h'. split; [by right | done].
  - destruct (decide (head_name h = n)) as [<-|Hne].
    + rewrite lookup_insert_eq in Hl. injection Hl as <-.
      left. exists h. split; [left | done].
    + rewrite lookup_insert_ne in Hl by done. by right.
Qed.

Lemma getDependency_Ok_inv (id0 : Toml) (byName : gmap string Dependency)
    (d : Dependency) :
  getDependency id0 byName = Ok d → ∃ n, byName !! n = Some d.
Proof.
  destruct id0 as [|s| |]; simpl; try discriminate.
  destruct (byName !! beforeSpace s) as [d'|] eqn:Hl; [|discriminate].
  intros [= <-]. eauto.
Qed.

Lemma getDependency_mapM_inv (ids : list Toml) (byName : gmap string Dependency)
    (ds : list Dependency) (d : Dependency) :
  mapM (fun id0 => getDependency id0 byName) ids = Ok ds → d ∈ ds →
  ∃ n, byName !! n = Some d.
Proof.
  intros H%mapM_Ok_inv Hd. induction H as [|id0 d' ids ds Hid H IH].
  - by apply elem_of_nil in Hd.
  - apply elem_of_cons in Hd as [-> | Hd]; [by eapply getDependency_Ok_inv | auto].
Qed.

Lemma toManifest_Ok_inv (value : Toml) (byName : gmap string Dependency) (s : Snapshot) :
  toManifest value byName = Ok s →
  truthy (snap_name s) = true ∧ truthy (snap_version s) = true
  ∧ ∀ d, d ∈ snap_dependencies s → ∃ n, byName !! n = Some d.
Proof.
  unfold toManifest, ok.
  destruct (toml_truthy (field value "name")) eqn:Hn; simpl; [|discriminate].
  destruct (toml_truthy (field value "version")) eqn:Hv; simpl; [|discriminate].
  destruct (isArray (field value "dependencies")); simpl; [|discriminate].
  destruct (mapM _ _) as [ds|e] eqn:Hm; simpl; [|discriminate].
  destruct (as_string (field value "name")) as [n|] eqn:En; simpl; [|discriminate].
  destruct (as_string (field value "version")) as [v|] eqn:Ev; simpl; [|discriminate].
  intros [= <-]. simpl.
  rewrite <-(as_string_truthy _ _ En), <-(as_string_truthy _ _ Ev).
  repeat split; try done. intros d Hd. by eapply getDependency_mapM_inv.
Qed.

Lemma hydrate_Ok_inv (byName : gmap string Dependency)
    (registration : RegistrationHead * list Toml) (r : Registration) :
  hydrate byName registration = Ok r →
  headOf r = fst registration
  ∧ ∀ d, d ∈ dependencies r → ∃ n, byName !! n = Some d.
Proof.
  unfold hydrate. destruct (mapM _ _) as [ds|e] eqn:Hm; simpl; [|discriminate].
  intros [= <-]. split; [by destruct registration as [[] ?]|].
  intros d Hd. by eapply getDependency_mapM_inv.
Qed.

(** The shape of a successful [fromToml], pass by pass. *)
Lemma fromTomlValue_Ok_inv (parsed : Toml) (dir : string) (lockfile : Lockfile) :
  fromTomlValue parsed dir = Ok lockfile →
  ∃ loaded byName,
    byName = foldl (fun m h => <[head_name h := toDependency h]> m) ∅ (fst <$> loaded)
    ∧ Forall acceptedHead (fst <$> loaded)
    ∧ mapM (hydrate byName) loaded = Ok (packages lockfile)
    ∧ metadata lockfile = toMetadata (field parsed "metadata")
    ∧ ∀ s, s ∈ root (workspace lockfile) :: members (workspace lockfile) →
        ∃ value, toManifest value byName = Ok s.
Proof.
  unfold fromTomlValue, ok.
  destruct (has parsed "root"); simpl; [|discriminate].
  destruct (array_or_empty (field parsed "packages")) as [values|e]; simpl; [|discriminate].
  destruct (loadPackages dir values ∅) as [[loaded byName]|e] eqn:Hl; simpl; [|discriminate].
  destruct (mapM (hydrate byName) loaded) as [packages0|e] eqn:Hh; simpl; [|discriminate].
  destruct (toManifest (field parsed "root") byName) as [root0|e] eqn:Hr; simpl;
    [|discriminate].
  destruct (array_or_empty (field parsed "members")) as [values'|e]; simpl; [|discriminate].
  destruct (mapM _ values') as [members0|e] eqn:Hm; simpl; [|discriminate].
  intros [= <-]. simpl. destruct (loadPackages_Ok_inv _ _ _ _ _ Hl) as [Hall Hidx].
  exists loaded, byName. repeat split; try done.
  intros s [-> | Hs]%elem_of_cons; [eauto|].
  apply mapM_Ok_inv in Hm. clear -Hm Hs.
  induction Hm as [|value s' values' members0 Hv Hm IH]; [by apply elem_of_nil in Hs|].
  apply elem_of_cons in Hs as [-> | Hs]; eauto.
Qed.

Lemma hydrated_heads (byName : gmap string Dependency)
    (loaded : list (RegistrationHead * list Toml)) (rs : list Registration) :
  mapM (hydrate byName) loaded = Ok rs → headOf <$> rs = fst <$> loaded.
Proof.
  intros H%mapM_Ok_inv. induction H as [|registration r loaded rs Hr H IH]; [done|].
  rewrite !fmap_cons, IH. f_equal. by apply hydrate_Ok_inv in Hr as [-> _].
Qed.

(** X4. A lockfile that [fromToml] returns is closed: every package has a
    non-empty name and version and the id [getRegistrationId] gives for
    them; the root and the members have non-empty names and versions; and
    every dependency, of the root, of a member or of a package, is the
    dependency [toDependency] derives from one of the lockfile's own
    packages. *)
Theorem fromToml_is_closed (toml dir : string) (lockfile : Lockfile) :
  fromToml toml dir = Ok lockfile →
  (∀ r, r ∈ packages lockfile →
     truthy (name r) = true ∧ truthy (version r) = true
     ∧ id r = getRegistrationId (name r) (version r))
  ∧ (∀ s, s ∈ root (workspace lockfile) :: members (workspace lockfile) →
       truthy (snap_name s) = true ∧ truthy (snap_version s) = true)
  ∧ (∀ d, d ∈ allDependencies lockfile →
       ∃ r, r ∈ packages lockfile ∧ d = toDependency (headOf r)).
Proof.
  unfold fromToml. destruct (parseToml toml) as [parsed|e]; simpl; [|discriminate].
  intros (loaded & byName & Hidx & Hall & Hh & _ & Hsnap)%fromTomlValue_Ok_inv.
  pose proof (hydrated_heads _ _ _ Hh) as Hheads.
  assert (∀ n d, byName !! n = Some d →
            ∃ r, r ∈ packages lockfile ∧ d = toDependency (headOf r)) as Hclosed.
  { intros n d Hl. rewrite Hidx in Hl.
    apply index_lookup_inv in Hl as [(h & Hin & ->) | Hl]; [|by rewrite lookup_empty in Hl].
    rewrite <-Hheads in Hin. apply list_elem_of_fmap in Hin as (r & -> & Hr). eauto. }
  split; [|split].
  - intros r Hr. rewrite <-Hheads in Hall.
    rewrite Forall_fmap, Forall_forall in Hall. exact (Hall r Hr).
  - intros s Hs. destruct (Hsnap s Hs) as [value Hv].
    by apply toManifest_Ok_inv in Hv as (? & ? & _).
  - intros d Hd. unfold allDependencies in Hd.
    apply elem_of_app in Hd as [Hd | Hd].
    { destruct (Hsnap (root (workspace lockfile))) as [value Hv]; [left|].
      apply toManifest_Ok_inv in Hv as (_ & _ & Hds).
      destruct (Hds d Hd) as [n Hn]. eauto. }
    apply elem_of_app in Hd as [Hd | Hd].
    + apply list_elem_of_bind in Hd as (s & Hd & Hs).
      destruct (Hsnap s) as [value Hv]; [by right|].
      apply toManifest_Ok_inv in Hv as (_ & _ & Hds).
      destruct (Hds d Hd) as [n Hn]. eauto.
    + apply list_elem_of_bind in Hd as (r & Hd & Hr).
      assert (∃ n, byName !! n = Some d) as [n Hn]; [|eauto].
      apply mapM_Ok_inv in Hh. clear -Hh Hr Hd.
      induction Hh as [|registration r' loaded rs Hr' Hh IH];
        [by apply elem_of_nil in Hr|].
      apply elem_of_cons in Hr as [-> | Hr]; [|auto].
      apply hydrate_Ok_inv in Hr' as [_ Hds]. exact (Hds d Hd).
Qed.

Lemma fromTomlValue_metadata_blind (parsed parsed' : Toml) (dir : string) :
  has parsed' "root" = has parsed "root" →
  field parsed' "root" = field parsed "root" →
  field parsed' "members" = field parsed "members" →
  field parsed' "packages" = field parsed "packages" →
  fromTomlValue parsed' dir
  = (lockfile ←! fromTomlValue parsed dir ;;
     Ok {| metadata := toMetadata (field parsed' "metadata");
           workspace := workspace lockfile;
           packages := packages lockfile |}).
Proof.
  intros Hhas Hroot Hmembers Hpackages. unfold fromTomlValue, ok.
  rewrite Hhas, Hroot, Hmembers, Hpackages.
  destruct (has parsed "root"); simpl; [|done].
  destruct (array_or_empty (field parsed "packages")) as [values|e]; simpl; [|done].
  destruct (loadPackages dir values ∅) as [loaded|e]; simpl; [|done].
  destruct (mapM (hydrate (snd loaded)) (fst loaded)) as [packages0|e]; simpl; [|done].
  destruct (toManifest (field parsed "root") (snd loaded)) as [root0|e]; simpl; [|done].
  destruct (array_or_empty (field parsed "members")) as [values'|e]; simpl; [|done].
  by destruct (mapM _ values') as [members0|e].
Qed.

(** X5. [fromToml] does not look at [metadata] when it decides whether to
    accept a text: when it accepts a lockfile text, it accepts every text
    whose document has the same [root], [members] and [packages], and
    returns the same workspace and packages for it. When the [metadata] of
    that document is missing, or carries another version than the current
    one, the lockfile read is invalid for every workspace. *)
Theorem unversioned_lockfile_is_invalid (toml toml' dir : string)
    (parsed parsed' : Toml) (lockfile : Lockfile) :
  parseToml toml = Ok parsed →
  fromToml toml dir = Ok lockfile →
  parseToml toml' = Ok parsed' →
  has parsed' "root" = has parsed "root" →
  field parsed' "root" = field parsed "root" →
  field parsed' "members" = field parsed "members" →
  field parsed' "packages" = field parsed "packages" →
  ∃ lockfile',
    fromToml toml' dir = Ok lockfile'
    ∧ workspace lockfile' = workspace lockfile
    ∧ packages lockfile' = packages lockfile
    ∧ (field (field parsed' "metadata") "version" ≠ VString LOCKFILE_VERSION →
       ∀ workspace0, isLockfileValid lockfile' workspace0 = Ok false).
Proof.
  intros Hp Hf Hp' Hhas Hroot Hmembers Hpackages.
  unfold fromToml in *. rewrite Hp in Hf. rewrite Hp'. simpl in *.
  rewrite (fromTomlValue_metadata_blind parsed parsed' dir Hhas Hroot Hmembers Hpackages).
  rewrite Hf. simpl. eexists. split; [reflexivity|]. simpl.
  split; [done|]. split; [done|].
  intros Hversion workspace0. unfold isLockfileValid. simpl. unfold toMetadata.
  destruct (field (field parsed' "metadata") "version") as [|s| |]; try done.
  simpl. destruct (String.eqb_spec s LOCKFILE_VERSION) as [->|]; [done|reflexivity].
Qed.

Lemma beforeSpace_first_word (n rest : string) :
  beforeSpace (n +:+ " " +:+ rest) = beforeSpace n.
Proof.
  induction n as [|c n IH]; [done|].
  rewrite append_cons. simpl. destruct (Ascii.eqb c " "); [done|]. by rewrite IH.
Qed.

(** X6. The id [toDependencyId] writes for a dependency is read back by
    [getDependency] through the text before its first space: the
    dependency is looked up under the first word of its name, which is its
    name only when the name has no space. *)
Theorem id_is_read_by_first_word (d : Dependency) (graph : DependencyGraph)
    (dir id0 : string) (byName : gmap string Dependency) :
  toDependencyId d graph dir = Ok id0 →
  beforeSpace id0 = beforeSpace (dep_name d)
  ∧ getDependency (VString id0) byName
    = match byName !! beforeSpace (dep_name d) with
      | Some dependency => Ok dependency
      | None =>
          Err (AssertionError
                 ("Package not found in lockfile, " +:+ DQ +:+ id0 +:+ DQ))
      end.
Proof.
  unfold toDependencyId. destruct (getRegistration graph d) as [r|]; [|discriminate].
  intros [= <-]. rewrite beforeSpace_first_word. split; [done|].
  simpl. by rewrite beforeSpace_first_word.
Qed.

End ReadingFacts.

(* ------------------------------------------------------------------ *)
(** ** More on the validity check *)
(* ------------------------------------------------------------------ *)
Section ValidityMore.
Context {env : LockfileEnv}.

Lemma filter_named_short {A} (key : A → string) (items : list A) (n : string) :
  NoDup (key <$> items) → (length (filter (fun item => key item = n) items) ≤ 1)%nat.
Proof.
  induction items as [|x items IH]; [simpl; lia|].
  rewrite fmap_cons, NoDup_cons. intros [Hx Hnd]. rewrite filter_cons.
  destruct (decide (key x = n)) as [Hk|Hk]; [|auto].
  assert (filter (fun item => key item = n) items = []) as ->; [|simpl; lia].
  destruct (filter _ items) as [|y l] eqn:Hf; [done|]. exfalso. apply Hx.
  assert (y ∈ filter (fun item => key item = n) items) as Hy by (rewrite Hf; left).
  apply list_elem_of_filter in Hy as [Hn Hy]. rewrite Hk, <-Hn.
  by apply list_elem_of_fmap_2.
Qed.

Lemma lastNamed_perm {A} (key : A → string) (items items' : list A) (n : string) :
  NoDup (key <$> items) → items ≡ₚ items' →
  lastNamed key items n = lastNamed key items' n.
Proof.
  intros Hnd Hperm. unfold lastNamed.
  pose proof (filter_named_short key items n Hnd) as Hlen.
  assert (filter (fun item => key item = n) items
          ≡ₚ filter (fun item => key item = n) items') as Hf by (by rewrite Hperm).
  destruct (filter _ items) as [|x [|y l]]; simpl in Hlen; [| |lia].
  - by apply Permutation_nil_l in Hf as <-.
  - by apply Permutation_singleton_l in Hf as <-.
Qed.

Lemma indexBy_perm {A} (key : A → string) (items items' : list A) :
  NoDup (key <$> items) → items ≡ₚ items' → indexBy key items = indexBy key items'.
Proof.
  intros Hnd Hperm. apply map_eq. intros n.
  rewrite !indexBy_lookup. by apply lastNamed_perm.
Qed.

Lemma compareManifests_reordered (current current' locked : Snapshot) :
  snap_name current' = snap_name current →
  snap_version current' = snap_version current →
  snap_dependencies current ≡ₚ snap_dependencies current' →
  NoDup (dep_name <$> snap_dependencies current) →
  compareManifests current' locked = compareManifests current locked.
Proof.
  intros Hn Hv Hperm Hnd. unfold compareManifests, compareDependencies.
  rewrite Hn, Hv, <-(Permutation_length Hperm), <-(indexBy_perm _ _ _ Hnd Hperm).
  reflexivity.
Qed.

(** X7. With unique dependency names in the root manifest and unique
    member names, the order in which the workspace lists the root's
    dependencies and its members does not matter to [isLockfileValid]: it
    returns, or throws, the same for both orders. *)
Theorem isLockfileValid_ignores_order (lockfile : Lockfile) (w1 w2 : Workspace) :
  reordered w1 w2 →
  NoDup (dep_name <$> snap_dependencies (root w1)) →
  NoDup (snap_name <$> members w1) →
  isLockfileValid lockfile w2 = isLockfileValid lockfile w1.
Proof.
  intros (Hn & Hv & Hdeps & Hmembers) Hnd1 Hnd2. unfold isLockfileValid.
  destruct (metadata lockfile) as [m|]; [|done].
  destruct (negb (String.eqb (meta_version m) LOCKFILE_VERSION)); [done|].
  rewrite (compareManifests_reordered (root w1) (root w2)) by done.
  rewrite <-(Permutation_length Hmembers), <-(indexBy_perm _ _ _ Hnd2 Hmembers).
  reflexivity.
Qed.

Lemma every_after_true {A} (test : A → result bool) (pre l : list A) :
  (∀ x, x ∈ pre → test x = Ok true) → every test (pre ++ l) = every test l.
Proof.
  induction pre as [|x pre IH]; intros H; [done|].
  simpl. rewrite (H x) by left. simpl. apply IH. intros y Hy. apply H. by right.
Qed.

(** X8. [isLockfileValid] does not answer [false] when the manifest of a
    locked path dependency cannot be loaded: with the version current, the
    root's name, version and dependency count equal, the locked
    dependencies before it satisfied, and the same path on both sides, the
    error of [loadManifest] is thrown by [isLockfileValid]. *)
Theorem isLockfileValid_throws_with_loadManifest (lockfile : Lockfile)
    (workspace0 : Workspace) (m : Metadata) (pre post : list Dependency)
    (c v : PathDependency) (e : Error) :
  metadata lockfile = Some m → meta_version m = LOCKFILE_VERSION →
  snap_name (root workspace0) = snap_name (root (workspace lockfile)) →
  snap_version (root workspace0) = snap_version (root (workspace lockfile)) →
  length (snap_dependencies (root workspace0))
  = length (snap_dependencies (root (workspace lockfile))) →
  snap_dependencies (root (workspace lockfile)) = pre ++ Path c :: post →
  (∀ d, d ∈ pre →
     ∃ current, lastNamed dep_name (snap_dependencies (root workspace0)) (dep_name d)
                = Some current
                ∧ satisfiedBy current d) →
  lastNamed dep_name (snap_dependencies (root workspace0)) (path_name c) = Some (Path v) →
  path_path v = path_path c →
  loadManifest (path_path v) = Err e →
  isLockfileValid lockfile workspace0 = Err e.
Proof.
  intros Hm Hversion Hn Hv Hlen Hdeps Hpre Hcur Hpath Hload.
  unfold isLockfileValid. rewrite Hm, Hversion. simpl.
  unfold compareManifests, compareDependencies.
  rewrite Hn, Hv, !String.eqb_refl, Hlen, Nat.eqb_refl. simpl.
  rewrite Hdeps, every_after_true.
  2: { intros d Hd. destruct (Hpre d Hd) as (current & Hc & Hs).
       rewrite indexBy_lookup, Hc. by apply satisfiesDependency_true. }
  simpl. rewrite indexBy_lookup, Hcur. simpl.
  rewrite Hpath, String.eqb_refl. simpl. rewrite <-Hpath, Hload. reflexivity.
Qed.

End ValidityMore.

(* ------------------------------------------------------------------ *)
(** ** More on [exportProject] *)
(* ------------------------------------------------------------------ *)
Section ExportMore.
Import ExportProject.
Context {paths : PathOps} {World Dependencies : Type}
        {fs : FileSystem World} {dirs : DirOps World}
        {collab : Collaborators World Dependencies}.

Ltac run_action :=
  unfold ebind, io, log, assign_staging, read_staging, throw, eret; simpl.

(** A run that gets to the staging part is the [try] block with its
    [finally] block, started after the fetch. *)
Lemma exportProject_staged_run options w project target0 deps w2 :
  reaches_staging options w project target0 deps w2 →
  exportProject options (initial w)
  = try_finally (staged options project target0 deps) cleanup
      {| world := w2; staging := None;
         logged := [(ExportProjectLoading, "[1/3] Loading project...")] |}.
Proof.
  intros (w1 & Hload & Htarget & Hchoose & Hfetch).
  unfold exportProject, initial. run_action. rewrite Hload. simpl.
  assert (negb (truthy_opt (target options))
          && negb (bool_decide (is_Some (manifest_target (project_manifest project))))
          = false) as ->.
  { destruct Htarget as [-> | Hsome]; [done|].
    rewrite (bool_decide_eq_true_2 _ Hsome). apply andb_false_r. }
  rewrite Hchoose. simpl. by rewrite Hfetch.
Qed.

(** X9. When [remove] of the staging directory fails, its error is what
    [exportProject] throws, whether the export and the update had
    succeeded or had thrown an error of their own. *)
Theorem cleanup_error_replaces_outcome options w project target0 deps w2 (e : Error) :
  (∀ a b, truthy (join a b) = true) →
  reaches_staging options w project target0 deps w2 →
  (∀ w0, fst (remove (stagingDir options project) w0) = Err e) →
  fst (exportProject options (initial w)) = Err e.
Proof.
  intros Hjoin Hreach Hremove.
  rewrite (exportProject_staged_run _ _ _ _ _ _ Hreach). unfold try_finally.
  destruct (staged options project target0 deps _) as [r1 st1] eqn:Hstaged.
  pose proof (staged_assigns _ _ _ _ _ _ _ Hstaged) as Hassigned.
  rewrite (cleanup_removes st1 _ Hassigned (stagingDir_truthy _ _ Hjoin)).
  specialize (Hremove (world st1)).
  destruct (remove (stagingDir options project) (world st1)) as [rr w']. simpl in *.
  by rewrite Hremove.
Qed.

(** X10. Target selection fails before anything is fetched or staged:
    without a [target] option and without a default target the action
    throws [export-no-target]; with a default target and a [target] option
    of another type it throws [export-no-matching], naming the type asked
    for. In both cases the file system is as [loadProject] left it and
    [staging] is unassigned. *)
Theorem export_target_errors options w project w1 :
  loadProject w = (Ok project, w1) →
  (truthy_opt (target options) = false →
   manifest_target (project_manifest project) = None →
   exportProject options (initial w)
   = (Err (CliError "export-no-target"
             ("No default target found for project," +:+ LF +:+
              "use --target TYPE to export from a specific target.")),
      {| world := w1; staging := None;
         logged := [(ExportProjectLoading, "[1/3] Loading project...")] |}))
  ∧ (∀ t type,
       manifest_target (project_manifest project) = Some t →
       target options = Some type → truthy type = true → type ≠ target_type t →
       exportProject options (initial w)
       = (Err (CliError "export-no-matching"
                 ("No matching target found for type " +:+ DQ +:+ type +:+ DQ +:+
                  " in project.")),
          {| world := w1; staging := None;
             logged := [(ExportProjectLoading, "[1/3] Loading project...")] |})).
Proof.
  intros Hload. split.
  - intros Hopt Hnone. unfold exportProject, initial. run_action.
    rewrite Hload. simpl. by rewrite Hopt, Hnone.
  - intros t type Ht Hopt Htruthy Hne. unfold exportProject, initial. run_action.
    rewrite Hload. simpl. unfold chooseTarget. rewrite Ht, Hopt. simpl. rewrite Htruthy.
    simpl. rewrite bool_decide_eq_false_2 by congruence. reflexivity.
Qed.

(** X11. Without [completed], a run that gets to the staging part works in
    the [export] directory of the project's staging path: it creates it,
    empties it, lets the bridge export into it, folds it back into the
    project and removes it, in this order. When creating it fails, nothing
    else is attempted except the removal. *)
Theorem export_through_own_staging options w project target0 deps w2 :
  let s := join (paths_staging project) "export" in
  truthy_opt (completed options) = false → truthy s = true →
  reaches_staging options w project target0 deps w2 →
  (∀ wa wb wc rx wd rr we,
     ensureDir s w2 = (Ok tt, wa) → emptyDir s wa = (Ok tt, wb) →
     exportTo project target0 s options wb = (Ok tt, wc) →
     exportTarget target0 project deps s wc = (rx, wd) →
     remove s wd = (rr, we) →
     exportProject options (initial w)
     = (match rr with Ok _ => rx | Err e => Err e end,
        {| world := we; staging := Some s;
           logged := [(ExportProjectLoading, "[1/3] Loading project...");
                      (ExportToStaging,
                       LF +:+ "[2/3] Exporting src from " +:+ DQ +:+
                       target_filename target0 +:+ DQ);
                      (ExportToProject, LF +:+ "[3/3] Updating project")] |}))
  ∧ (∀ e wa rr wb,
       ensureDir s w2 = (Err e, wa) → remove s wa = (rr, wb) →
       exportProject options (initial w)
       = (match rr with Ok _ => Err e | Err e' => Err e' end,
          {| world := wb; staging := Some s;
             logged := [(ExportProjectLoading, "[1/3] Loading project...");
                        (ExportToStaging,
                         LF +:+ "[2/3] Exporting src from " +:+ DQ +:+
                         target_filename target0 +:+ DQ)] |})).
Proof.
  intros s Hc Hs Hreach.
  rewrite (exportProject_staged_run _ _ _ _ _ _ Hreach).
  unfold try_finally, staged, cleanup. rewrite Hc. run_action. fold s. split.
  - intros wa wb wc rx wd rr we H1 H2 H3 H4 H5.
    rewrite H1. simpl. rewrite H2. simpl. rewrite H3. simpl. rewrite H4. simpl.
    rewrite Hs. simpl. rewrite H5. by destruct rr.
  - intros e wa rr wb H1 H2. rewrite H1. simpl. rewrite Hs. simpl. rewrite H2.
    by destruct rr.
Qed.

End ExportMore.

(* ------------------------------------------------------------------ *)
(** ** More on the manifest update *)
(* ------------------------------------------------------------------ *)
Section ManifestMore.
Import ApplyChangeset.
Context {paths : PathOps} {patch : PatchManifest}.

Lemma without_first_length (n : string) (src : list Source) :
  n ∈ src_name <$> src → length (without_first n src) = pred (length src).
Proof.
  induction src as [|x src IH]; simpl; [by intros ?%elem_of_nil|].
  unfold named at 1. destruct (String.eqb_spec (src_name x) n) as [Hx|Hx]; [done|].
  intros [?|Hn]%elem_of_cons; [congruence|]. simpl. rewrite (IH Hn).
  destruct src; [by apply elem_of_nil in Hn | done].
Qed.

Lemma removelast_shorter {A} (l : list A) : length (removelast l) = pred (length l).
Proof.
  destruct l as [|x l] using rev_ind; [done|].
  rewrite removelast_last, length_app. simpl. lia.
Qed.

Lemma removeOne_length (st : Manifest * list string) (c : Component) :
  length (manifest_src (fst (removeOne st c))) = pred (length (manifest_src (fst st))).
Proof.
  rewrite removeOne_src. case_bool_decide.
  - by apply without_first_length.
  - apply removelast_shorter.
Qed.

Lemma removeOne_fold_length (cs : list Component) (st : Manifest * list string) :
  length (manifest_src (fst (foldl removeOne st cs)))
  = (length (manifest_src (fst st)) - length cs)%nat.
Proof.
  revert st. induction cs as [|c cs IH]; intros st; cbn [foldl]; [simpl; lia|].
  rewrite IH, removeOne_length. simpl. lia.
Qed.

(** X12. After [updateManifest], [manifest.src] has as many entries as
    before, plus the added components, minus the removed ones, and never
    less than none: each removal deletes one entry as long as there is one,
    whether or not an entry has the removed name. *)
Theorem updateManifest_src_length (project : Project) (changeset : Changeset) :
  length (src_after project changeset)
  = (length (manifest_src (project_manifest project))
     + length (added (components changeset))
     - length (removed (components changeset)))%nat.
Proof.
  rewrite src_after_unfold, removeOne_fold_length, addOne_fold_src.
  simpl. by rewrite length_app, length_fmap.
Qed.

Lemma addOne_fold_frame (dir : string) (cs : list Component) (st : Manifest * list string) :
  sameButSrc (fst st) (fst (foldl (addOne dir) st cs))
  ∧ length (snd (foldl (addOne dir) st cs)) = (length (snd st) + length cs)%nat.
Proof.
  revert st. induction cs as [|c cs IH]; intros st; cbn [foldl].
  - split; [done | simpl; lia].
  - destruct (IH (addOne dir st c)) as [(H1 & H2 & H3 & H4) Hlen].
    split; [by repeat split|]. rewrite Hlen. simpl. rewrite length_app. simpl. lia.
Qed.

Lemma removeOne_fold_frame (cs : list Component) (st : Manifest * list string) :
  sameButSrc (fst st) (fst (foldl removeOne st cs))
  ∧ length (snd (foldl removeOne st cs)) = (length (snd st) + length cs)%nat.
Proof.
  revert st. induction cs as [|c cs IH]; intros st; cbn [foldl].
  - split; [done | simpl; lia].
  - destruct (IH (removeOne st c)) as [(H1 & H2 & H3 & H4) Hlen].
    split; [by repeat split|]. rewrite Hlen. simpl. rewrite length_app. simpl. lia.
Qed.

(** X13. [updateManifest] touches [manifest.src] only: the name, the
    version, the default target and the dependencies of the manifest and
    the paths of the project stay as they are. [applyChanges] receives one
    change per added and per removed component. Components that only
    changed do not count: with nothing added and nothing removed the
    project is returned as it was and no change is handed on. *)
Theorem updateManifest_touches_src_only (project : Project) (changeset : Changeset) :
  let result := updateManifest project changeset in
  sameButSrc (project_manifest project) (project_manifest (fst result))
  ∧ paths_dir (fst result) = paths_dir project
  ∧ paths_staging (fst result) = paths_staging project
  ∧ length (snd result)
    = (length (added (components changeset))
       + length (removed (components changeset)))%nat
  ∧ (added (components changeset) = [] → removed (components changeset) = [] →
     result = (project, [])).
Proof.
  intros result. unfold result, updateManifest. cbn [fst snd].
  set (st1 := foldl (addOne (paths_dir project)) (project_manifest project, [])
                (added (components changeset))).
  destruct (addOne_fold_frame (paths_dir project) (added (components changeset))
              (project_manifest project, [])) as [(A1 & A2 & A3 & A4) Alen].
  destruct (removeOne_fold_frame (removed (components changeset)) st1)
    as [(R1 & R2 & R3 & R4) Rlen].
  fold st1 in A1, A2, A3, A4, Alen.
  split; [|split; [done|split; [done|split]]].
  - unfold sameButSrc. simpl. by rewrite R1, R2, R3, R4.
  - rewrite Rlen, Alen. simpl. lia.
  - intros Ha Hr. unfold st1. rewrite Ha, Hr. simpl. by destruct project.
Qed.

End ManifestMore.

(* ------------------------------------------------------------------ *)
(** ** [download] *)
(* ------------------------------------------------------------------ *)
Section DownloadFacts.
Import Download.
Context {World : Type} {dirs : DirOps World} {https : Https World}.

(** X15. A response with a status of 400 or more makes [download] reject
    with the status and its message as text; nothing is written to the
    destination, only its directory has been created. *)
Theorem download_rejects_error_status (fuel : nat) (url : option string)
    (dest : string) (w w1 : World) (response : Response) (code : nat) :
  ensureDir (dirname dest) w = (Ok tt, w1) →
  get url = inl response →
  statusCode response = Some code →
  (400 ≤ code)%nat →
  download (S fuel) url dest w
  = (Rejected (EnvError (pretty code +:+ " " +:+ statusMessage response)), w1).
Proof.
  intros Hdir Hget Hcode Hge. cbn [download]. rewrite Hdir, Hget, Hcode.
  by rewrite (proj2 (Nat.leb_le 400 code) Hge).
Qed.

Lemma iter_shift {A} (f : A → A) (n : nat) (x : A) :
  Nat.iter n f (f x) = f (Nat.iter n f x).
Proof. induction n as [|n IH]; simpl; [done | by rewrite IH]. Qed.

(** X16. [download] follows redirects: when [n] redirects lead from the
    url to a response that is written, the promise settles as the writing
    of that response's body to the destination does, after the directory
    of the destination has been ensured once per request. Statuses below
    300, and a missing status, are written. *)
Theorem download_follows_redirects (n fuel : nat) (url : option string)
    (final : Response) (dest : string) (touch : World → World) (w : World) :
  (∀ w0, ensureDir (dirname dest) w0 = (Ok tt, touch w0)) →
  follows n url final →
  (n < fuel)%nat →
  download fuel url dest w = saveBody final dest (Nat.iter (S n) touch w).
Proof.
  intros Hdir Hfollows. revert fuel w.
  induction Hfollows as [url response Hget Hsaves
                        | n url response final Hget (code & Hcode & Hrange) Hrest IH];
    intros fuel w Hfuel; (destruct fuel as [|fuel]; [lia|]); cbn [download];
    rewrite Hdir, Hget.
  - unfold saves in Hsaves. destruct (statusCode response) as [code|]; [|done].
    cbv beta iota.
    rewrite (proj2 (Nat.leb_gt 400 code)) by lia.
    by rewrite (proj2 (Nat.leb_gt 300 code)) by lia.
  - rewrite Hcode. rewrite (proj2 (Nat.leb_gt 400 code)) by lia.
    rewrite (proj2 (Nat.leb_le 300 code)) by lia.
    rewrite IH by lia. cbn [Nat.iter]. by rewrite !iter_shift.
Qed.

(** X17. [download] sets no bound on redirects: for an address whose
    response redirects to the address itself, the promise is not settled
    after any number of requests. *)
Theorem download_self_redirect_never_settles (url : option string) (dest : string)
    (response : Response) :
  (∀ w0, ∃ w1, ensureDir (dirname dest) w0 = (Ok tt, w1)) →
  get url = inl response →
  redirects response →
  redirectOf (location response) = url →
  ∀ fuel w, fst (download fuel url dest w) = Pending.
Proof.
  intros Hdir Hget (code & Hcode & Hrange) Hself fuel.
  induction fuel as [|fuel IH]; intros w; [done|].
  cbn [download]. destruct (Hdir w) as [w1 ->]. rewrite Hget, Hcode.
  rewrite (proj2 (Nat.leb_gt 400 code)) by lia.
  rewrite (proj2 (Nat.leb_le 300 code)) by lia.
  rewrite Hself. apply IH.
Qed.

End DownloadFacts.

(* ------------------------------------------------------------------ *)
(** ** Composing the lockfile operations, and the choice of target *)
(* ------------------------------------------------------------------ *)
Section ComposedFacts.
Context {paths : PathOps} {regs : RegistrationOps} {codec : TomlCodec}
        {env : LockfileEnv} {World : Type} {fs : FileSystem World}.

(** X18. What [writeLockfile] has written, [readLockfile] reads: for a
    lockfile with the resolver's invariants, a parser that reads back the
    written document and a file system where a written file exists and
    reads as written, [readLockfile] after [writeLockfile] returns the
    locked view of the lockfile that was written. *)
Theorem written_lockfile_reads_back (dir : string) (lockfile : Lockfile) (w w' : World) :
  (∀ p text w0 w1, writeFile p text w0 = Ok w1 →
                   pathExists w1 p = true ∧ readFile w1 p = Ok text) →
  lockable lockfile dir →
  readsBack lockfile dir →
  writeLockfile dir lockfile w = Ok w' →
  readLockfile w' dir = Ok (Some (lockedView dir (sorted lockfile))).
Proof.
  intros Hfs Hl Hcodec. unfold writeLockfile, try_catch.
  pose proof (toTomlValue_lockable lockfile dir Hl) as Hvalue.
  unfold toToml. rewrite Hvalue. cbn [rbind fst].
  destruct (writeFile _ _ w) as [w1|e] eqn:Hw; [|discriminate].
  intros [= <-]. destruct (Hfs _ _ _ _ Hw) as [Hexists Hread].
  rewrite readLockfile_outcome, Hexists, Hread. unfold fromToml.
  rewrite (Hcodec _ Hvalue). cbn [rbind]. by rewrite (fromTomlValue_lockable _ _ Hl).
Qed.

Lemma le_not_ltb (a b : string) : String.le a b → String.ltb b a = false.
Proof.
  unfold String.le, String.ltb, String.leb.
  rewrite (String.compare_antisym b a). by destruct (String.compare a b).
Qed.

Lemma sortByName_sorted_id (graph : DependencyGraph) :
  sortedByName graph → sortByName graph = graph.
Proof.
  unfold sortedByName. induction 1 as [|r graph Hsorted IH Hr]; [done|].
  simpl. rewrite IH. destruct graph as [|x graph]; [done|]. simpl.
  apply Forall_cons in Hr as [Hx _]. by rewrite (le_not_ltb _ _ Hx).
Qed.

(** X19. [toToml] leaves a lockfile it has already sorted as it is: a
    second call returns the lockfile of the first call unchanged, packages
    of equal names included. *)
Theorem toToml_keeps_sorted_lockfile (lockfile lockfile1 lockfile2 : Lockfile)
    (dir text1 text2 : string) :
  toToml lockfile dir = Ok (text1, lockfile1) →
  toToml lockfile1 dir = Ok (text2, lockfile2) →
  lockfile2 = lockfile1.
Proof.
  intros (_ & _ & ->)%toToml_value (_ & _ & ->)%toToml_value.
  unfold sorted. simpl. by rewrite (sortByName_sorted_id _ (sortByName_sorted _)).
Qed.

End ComposedFacts.

Section TargetFacts.
Import ExportProject.
Context {paths : PathOps}.

(** X20. The target [exportProject] works on, once it is past the check
    for a missing target: with a [target] option it has the type asked
    for; when the manifest has a default target it is that target;
    otherwise it is a blank target named after the project, under
    [targets/] and the type asked for. *)
Theorem chosen_target (options : ExportOptions) (project : Project) (t : Target) :
  negb (truthy_opt (target options))
  && negb (bool_decide (is_Some (manifest_target (project_manifest project)))) = false →
  chooseTarget options project = Some t →
  (truthy_opt (target options) = true → target options = Some (target_type t))
  ∧ (∀ t0, manifest_target (project_manifest project) = Some t0 → t = t0)
  ∧ (manifest_target (project_manifest project) = None →
     ∃ type, target options = Some type
       ∧ t = {| target_type := type;
                target_name := manifest_name (project_manifest project);
                target_path := "targets/" +:+ type;
                target_filename :=
                  sanitize (manifest_name (project_manifest project)) +:+ "." +:+ type;
                target_blank := true |}).
Proof.
  unfold chooseTarget.
  destruct (manifest_target (project_manifest project)) as [t0|].
  - intros _. destruct (truthy_opt (target options)) eqn:Hopt; simpl.
    + case_bool_decide as Heq; [|discriminate]. intros [= <-].
      repeat split; try done. by intros ? [= <-].
    + intros [= <-]. repeat split; try done. by intros ? [= <-].
  - destruct (target options) as [type|] eqn:Htype.
    + intros _ [= <-]. simpl. repeat split; try done. by exists type.
    + intros Hcheck. exfalso. revert Hcheck. vm_compute. discriminate.
Qed.

End TargetFacts.

(* ------------------------------------------------------------------ *)
(** ** The further properties on closed examples *)
(* ------------------------------------------------------------------ *)

Lemma toToml_sorts_packages_witness :
  let lockfile' := sorted unsortedLock in
  packages lockfile' ≡ₚ packages unsortedLock
  ∧ sortedByName (packages lockfile')
  ∧ metadata lockfile' = metadata unsortedLock
  ∧ workspace lockfile' = workspace unsortedLock
  ∧ ∃ value, toTomlValue (paths:=simplePaths) (regs:=simpleRegistrations)
               unsortedLock "/book" = Ok value
             ∧ (fun entry => field entry "name") <$> array_items (field value "packages")
               = (fun r => VString (name r)) <$> packages lockfile'.
Proof.
  apply (toToml_sorts_packages (paths:=simplePaths) (regs:=simpleRegistrations)
           (codec:=bookCodec) (env:=exampleEnv)
           unsortedLock (sorted unsortedLock) "/book" bookLockText).
  reflexivity.
Defined.

Lemma writeLockfile_failure_witness :
  let e := CliError "lockfile-write-failed"
             ("Failed to write lockfile to " +:+ DQ +:+ "/book/vba-block.lock" +:+ DQ +:+ ".") in
  e = CliError "lockfile-write-failed"
        ("Failed to write lockfile to " +:+ DQ +:+
         join (PathOps:=simplePaths) "/book" "vba-block.lock" +:+ DQ +:+ ".")
  ∧ ((∃ cause, toToml (paths:=simplePaths) (regs:=simpleRegistrations) (codec:=bookCodec)
                 (env:=exampleEnv) danglingLock "/book" = Err cause)
     ∨ (∃ text lockfile' cause,
          toToml (paths:=simplePaths) (regs:=simpleRegistrations) (codec:=bookCodec)
            (env:=exampleEnv) danglingLock "/book" = Ok (text, lockfile')
          ∧ writeFile (FileSystem:=textFiles)
              (join (PathOps:=simplePaths) "/book" "vba-block.lock") text [] = Err cause)).
Proof.
  intros e.
  apply (writeLockfile_failure (paths:=simplePaths) (regs:=simpleRegistrations)
           (codec:=bookCodec) (env:=exampleEnv) (fs:=textFiles)
           "/book" danglingLock [] e).
  reflexivity.
Defined.

Lemma fromToml_is_closed_witness :
  let lockfile := lockedBook [fooLocked] [] in
  (∀ r, r ∈ packages lockfile →
     truthy (name r) = true ∧ truthy (version r) = true
     ∧ id r = getRegistrationId (RegistrationOps:=simpleRegistrations) (name r) (version r))
  ∧ (∀ s, s ∈ root (workspace lockfile) :: members (workspace lockfile) →
       truthy (snap_name s) = true ∧ truthy (snap_version s) = true)
  ∧ (∀ d, d ∈ allDependencies lockfile →
       ∃ r, r ∈ packages lockfile
            ∧ d = toDependency (RegistrationOps:=simpleRegistrations) (headOf r)).
Proof.
  apply (fromToml_is_closed (paths:=simplePaths) (regs:=simpleRegistrations)
           (codec:=bookCodec) bookLockText "/book" (lockedBook [fooLocked] [])).
  reflexivity.
Defined.

Lemma unversioned_lockfile_is_invalid_witness :
  ∃ lockfile',
    fromToml (paths:=simplePaths) (regs:=simpleRegistrations) (codec:=versionsCodec)
      bookText "/book" = Ok lockfile'
    ∧ workspace lockfile' = workspace (lockedBook [fooLocked] [])
    ∧ packages lockfile' = packages (lockedBook [fooLocked] [])
    ∧ (field (field unversionedTree "metadata") "version" ≠ VString LOCKFILE_VERSION →
       ∀ workspace0, isLockfileValid (env:=exampleEnv) lockfile' workspace0 = Ok false).
Proof.
  apply (unversioned_lockfile_is_invalid (paths:=simplePaths) (regs:=simpleRegistrations)
           (codec:=versionsCodec) (env:=exampleEnv)
           bookLockText bookText "/book" bookTree unversionedTree
           (lockedBook [fooLocked] [])); reflexivity.
Defined.

Lemma id_is_read_by_first_word_witness :
  beforeSpace "my lib 1.0.0 registry+default" = beforeSpace "my lib"
  ∧ getDependency (VString "my lib 1.0.0 registry+default") {[ "my" := fooLocked ]}
    = match ({[ "my" := fooLocked ]} : gmap string Dependency) !! beforeSpace "my lib" with
      | Some dependency => Ok dependency
      | None =>
          Err (AssertionError
                 ("Package not found in lockfile, " +:+ DQ +:+
                  "my lib 1.0.0 registry+default" +:+ DQ))
      end.
Proof.
  apply (id_is_read_by_first_word (paths:=simplePaths) (regs:=simpleRegistrations)
           spacedRange [spacedPackage] "/book").
  reflexivity.
Defined.

Lemma isLockfileValid_ignores_order_witness :
  isLockfileValid (env:=exampleEnv)
    (lockedBook [fooLocked; libPath (Some "0.2.0")] [toolsSnapshot])
    {| root := bookSnapshot [fooRange; libPath None]; members := [toolsSnapshot] |}
  = isLockfileValid (env:=exampleEnv)
      (lockedBook [fooLocked; libPath (Some "0.2.0")] [toolsSnapshot])
      {| root := bookSnapshot [libPath None; fooRange]; members := [toolsSnapshot] |}.
Proof.
  apply isLockfileValid_ignores_order.
  - split; [reflexivity|]. split; [reflexivity|]. split; [apply perm_swap | reflexivity].
  - apply (bool_decide_unpack _). vm_compute. exact I.
  - apply (bool_decide_unpack _). vm_compute. exact I.
Defined.

Lemma isLockfileValid_throws_with_loadManifest_witness :
  isLockfileValid (env:=exampleEnv)
    (lockedBook [fooLocked; elsewhere (Some "0.1.0")] [])
    {| root := bookSnapshot [fooRange; elsewhere None]; members := [] |}
  = Err (CliError "manifest-not-found" "/elsewhere").
Proof.
  apply (isLockfileValid_throws_with_loadManifest (env:=exampleEnv)
           (lockedBook [fooLocked; elsewhere (Some "0.1.0")] [])
           {| root := bookSnapshot [fooRange; elsewhere None]; members := [] |}
           {| meta_version := "1" |} [fooLocked] []
           {| path_name := "ext"; path_path := "/elsewhere"; path_version := Some "0.1.0" |}
           {| path_name := "ext"; path_path := "/elsewhere"; path_version := None |});
    try reflexivity.
  intros d Hd. apply list_elem_of_singleton in Hd. subst d.
  exists fooRange. split; reflexivity.
Defined.

Lemma cleanup_error_replaces_outcome_witness :
  fst (ExportProject.exportProject (paths:=simplePaths) (dirs:=stuckDirs)
         (collab:=bookCollaborators) (exportXlsm None) (initial ["/book"]))
  = Err (EnvError "EBUSY").
Proof.
  apply (cleanup_error_replaces_outcome (paths:=simplePaths) (dirs:=stuckDirs)
           (collab:=bookCollaborators)
           (exportXlsm None) ["/book"] twoModules blankXlsm tt ["/book"]).
  - exact simple_join_truthy.
  - exists ["/book"]. split; [reflexivity|]. split; [by left|]. split; reflexivity.
  - reflexivity.
Defined.

Lemma export_target_errors_witness :
  ExportProject.exportProject (paths:=simplePaths) (dirs:=listDirs)
    (collab:=xlsmCollaborators)
    {| ExportProject.target := Some "xlsb"; ExportProject.completed := None;
       ExportProject.addin := None |} (initial ["/book"])
  = (Err (CliError "export-no-matching"
            ("No matching target found for type " +:+ DQ +:+ "xlsb" +:+ DQ +:+
             " in project.")),
     {| ExportProject.world := ["/book"]; ExportProject.staging := None;
        ExportProject.logged :=
          [(ExportProject.ExportProjectLoading, "[1/3] Loading project...")] |}).
Proof.
  apply (proj2 (export_target_errors (paths:=simplePaths) (dirs:=listDirs)
                  (collab:=xlsmCollaborators)
                  {| ExportProject.target := Some "xlsb";
                     ExportProject.completed := None;
                     ExportProject.addin := None |}
                  ["/book"] xlsmBook ["/book"] eq_refl)
               xlsmTarget "xlsb" eq_refl eq_refl eq_refl).
  discriminate.
Defined.

Lemma export_through_own_staging_witness :
  ExportProject.exportProject (paths:=simplePaths) (dirs:=listDirs)
    (collab:=bookCollaborators) (exportXlsm None) (initial ["/book"])
  = (Ok tt,
     {| ExportProject.world := ["/book/src/Module1.bas"; "/book"];
        ExportProject.staging := Some "/cache/staging/export";
        ExportProject.logged :=
          [(ExportProject.ExportProjectLoading, "[1/3] Loading project...");
           (ExportProject.ExportToStaging,
            LF +:+ "[2/3] Exporting src from " +:+ DQ +:+
            target_filename blankXlsm +:+ DQ);
           (ExportProject.ExportToProject, LF +:+ "[3/3] Updating project")] |}).
Proof.
  apply (proj1 (export_through_own_staging (paths:=simplePaths) (dirs:=listDirs)
                  (collab:=bookCollaborators)
                  (exportXlsm None) ["/book"] twoModules blankXlsm tt ["/book"]
                  eq_refl eq_refl
                  (ex_intro _ ["/book"]
                     (conj eq_refl (conj (or_introl eq_refl) (conj eq_refl eq_refl)))))
               ["/cache/staging/export"; "/book"]
               ["/cache/staging/export"; "/book"]
               ["/cache/staging/export/Module1.bas"; "/cache/staging/export"; "/book"]
               (Ok tt)
               ["/book/src/Module1.bas"; "/cache/staging/export/Module1.bas";
                "/cache/staging/export"; "/book"]
               (Ok tt)
               ["/book/src/Module1.bas"; "/book"]
               eq_refl eq_refl eq_refl eq_refl eq_refl).
Defined.

Lemma download_rejects_error_status_witness :
  Download.download (dirs:=listDirs) (https:=smallNet) 1
    (Some "https://a/missing.tgz") "/cache/foo.tgz" []
  = (Download.Rejected (EnvError (pretty 404%nat +:+ " " +:+ "Not Found")), ["/cache"]).
Proof.
  apply (download_rejects_error_status (dirs:=listDirs) (https:=smallNet)
           0 (Some "https://a/missing.tgz") "/cache/foo.tgz" [] ["/cache"]
           {| Download.statusCode := Some 404%nat;
              Download.statusMessage := "Not Found";
              Download.location := Download.NoLocation;
              Download.body := EmptyString |} 404).
  - reflexivity.
  - reflexivity.
  - reflexivity.
  - lia.
Defined.

Lemma download_follows_redirects_witness :
  Download.download (dirs:=listDirs) (https:=smallNet) 3
    (Some "https://a/foo.tgz") "/cache/foo.tgz" []
  = Download.saveBody (https:=smallNet) tarball "/cache/foo.tgz"
      (Nat.iter 3 (cons "/cache") []).
Proof.
  apply (download_follows_redirects (dirs:=listDirs) (https:=smallNet)
           2 3 (Some "https://a/foo.tgz") tarball "/cache/foo.tgz" (cons "/cache") []).
  - reflexivity.
  - apply (follows_redirect (https:=smallNet) 1 (Some "https://a/foo.tgz")
             (redirectTo 302 (Download.OneLocation "https://b/foo.tgz")) tarball);
      [reflexivity | exists 302%nat; split; [reflexivity | lia] |].
    apply (follows_redirect (https:=smallNet) 0 (Some "https://b/foo.tgz")
             (redirectTo 301
                (Download.ManyLocations ["https://c/foo.tgz"; "https://d/foo.tgz"]))
             tarball);
      [reflexivity | exists 301%nat; split; [reflexivity | lia] |].
    apply (follows_here (https:=smallNet) (Some "https://c/foo.tgz") tarball);
      [reflexivity | unfold saves; simpl; lia].
  - lia.
Defined.

Lemma download_self_redirect_never_settles_witness :
  fst (Download.download (dirs:=listDirs) (https:=smallNet) 1000
         (Some "https://loop/foo.tgz") "/cache/foo.tgz" []) = Download.Pending.
Proof.
  refine (download_self_redirect_never_settles (dirs:=listDirs) (https:=smallNet)
            (Some "https://loop/foo.tgz") "/cache/foo.tgz"
            (redirectTo 302 (Download.OneLocation "https://loop/foo.tgz"))
            _ _ _ _ 1000%nat []).
  - intros w0. by exists ("/cache" :: w0).
  - reflexivity.
  - exists 302%nat. split; [reflexivity | lia].
  - reflexivity.
Defined.

Lemma textFiles_read_after_write (p text : string) (w0 w1 : list (string * string)) :
  writeFile (FileSystem:=textFiles) p text w0 = Ok w1 →
  pathExists (FileSystem:=textFiles) w1 p = true
  ∧ readFile (FileSystem:=textFiles) w1 p = Ok text.
Proof.
  intros [= <-]. simpl. by rewrite String.eqb_refl.
Qed.

Lemma written_lockfile_reads_back_witness :
  readLockfile (paths:=simplePaths) (regs:=simpleRegistrations) (codec:=bookCodec)
    (fs:=textFiles) [("/book/vba-block.lock", bookLockText)] "/book"
  = Ok (Some (lockedView (paths:=simplePaths) (regs:=simpleRegistrations) "/book"
                (sorted (lockedBook [fooRange] [])))).
Proof.
  apply (written_lockfile_reads_back (paths:=simplePaths) (regs:=simpleRegistrations)
           (codec:=bookCodec) (env:=exampleEnv) (fs:=textFiles)
           "/book" (lockedBook [fooRange] []) []
           [("/book/vba-block.lock", bookLockText)]
           textFiles_read_after_write book_lockable book_readsBack).
  reflexivity.
Defined.

Lemma toToml_keeps_sorted_lockfile_witness :
  sorted (sorted unsortedLock) = sorted unsortedLock.
Proof.
  apply (toToml_keeps_sorted_lockfile (paths:=simplePaths) (regs:=simpleRegistrations)
           (codec:=bookCodec) (env:=exampleEnv)
           unsortedLock (sorted unsortedLock) (sorted (sorted unsortedLock))
           "/book" bookLockText bookLockText); reflexivity.
Defined.

Lemma chosen_target_witness :
  (truthy_opt (ExportProject.target (exportXlsm None)) = true →
   ExportProject.target (exportXlsm None) = Some (target_type blankXlsm))
  ∧ (∀ t0, manifest_target (project_manifest twoModules) = Some t0 → blankXlsm = t0)
  ∧ (manifest_target (project_manifest twoModules) = None →
     ∃ type, ExportProject.target (exportXlsm None) = Some type
       ∧ blankXlsm
         = {| target_type := type;
              target_name := manifest_name (project_manifest twoModules);
              target_path := "targets/" +:+ type;
              target_filename :=
                sanitize (PathOps:=simplePaths)
                  (manifest_name (project_manifest twoModules)) +:+ "." +:+ type;
              target_blank := true |}).
Proof.
  apply (chosen_target (paths:=simplePaths) (exportXlsm None) twoModules blankXlsm);
    reflexivity.
Defined.
